(** * XIndex facade: a shallow embedding of [xindex_impl.h]

    The development embeds the index facade [XIndex<key_t, val_t, seq>]
    (constructor, destructor, [get], [put], [remove], [scan],
    [range_scan], the coordinator's part of [background],
    [force_adjustment_sync], [byte_size]) together with the global
    allocation counter [xindex::_::allocated_bytes] and the [ByteSize]
    pair.  The facade is written against an interface [Root]: the class
    [root_t] itself (files [xindex_root_impl.h], [xindex_group_impl.h],
    [xindex_buffer_impl.h], [xindex_model_impl.h]) and the helpers of
    [xindex_util.h] are not part of the sources at hand. *)

From Stdlib Require Import ZArith List Bool Lia String.
Import ListNotations.
Local Open Scope Z_scope.

(** ** Machine integers: [size_t] is an unsigned 64-bit integer *)

Definition size_wrap (z : Z) : Z := z mod 2 ^ 64.
Definition size_add (a b : Z) : Z := size_wrap (a + b).
Definition size_sub (a b : Z) : Z := size_wrap (a - b).

(** ** [byte_size.hpp] *)

Record ByteSize : Type := mkByteSize { allocated : Z; used : Z }.

(** [ByteSize& operator+=(const ByteSize& rhs)] *)
Definition ByteSize_add_assign (this rhs : ByteSize) : ByteSize :=
  {| allocated := size_add (allocated this) (allocated rhs);
     used := size_add (used this) (used rhs) |}.

(** ** Declarations that the facade uses *)

(** Modelled from the spec: the enumeration [result_t] is declared in
    [xindex_util.h].  The facade names [result_t::ok] and
    [result_t::retry]; the negative answer of [get] and [remove] is the
    spec's "not-found". *)
Inductive result_t : Type := ok | not_found | retry.

Definition result_eqb (a b : result_t) : bool :=
  match a, b with
  | ok, ok | not_found, not_found | retry, retry => true
  | _, _ => false
  end.

(** Modelled from the spec: the global [config] is declared in
    [xindex_util.h].  Its eight tunables are the ones the constructor
    checks; [exited] is the flag [terminate_bg] raises.  The tunables are
    modelled as integers. *)
Record index_config_t : Type := mkConfig {
  root_error_bound : Z;
  root_memory_constraint : Z;
  group_error_bound : Z;
  group_error_tolerance : Z;
  buffer_size_bound : Z;
  buffer_size_tolerance : Z;
  buffer_compact_threshold : Z;
  worker_n : Z;
  exited : bool
}.

Definition set_worker_n (n : Z) (c : index_config_t) : index_config_t :=
  {| root_error_bound := root_error_bound c;
     root_memory_constraint := root_memory_constraint c;
     group_error_bound := group_error_bound c;
     group_error_tolerance := group_error_tolerance c;
     buffer_size_bound := buffer_size_bound c;
     buffer_size_tolerance := buffer_size_tolerance c;
     buffer_compact_threshold := buffer_compact_threshold c;
     worker_n := n;
     exited := exited c |}.

Definition set_exited (b : bool) (c : index_config_t) : index_config_t :=
  {| root_error_bound := root_error_bound c;
     root_memory_constraint := root_memory_constraint c;
     group_error_bound := group_error_bound c;
     group_error_tolerance := group_error_tolerance c;
     buffer_size_bound := buffer_size_bound c;
     buffer_size_tolerance := buffer_size_tolerance c;
     buffer_compact_threshold := buffer_compact_threshold c;
     worker_n := worker_n c;
     exited := b |}.

(** The eight checks of the constructor, as one boolean. *)
Definition config_positive (c : index_config_t) : bool :=
  (0 <? root_error_bound c) && (0 <? root_memory_constraint c)
  && (0 <? group_error_bound c) && (0 <? group_error_tolerance c)
  && (0 <? buffer_size_bound c) && (0 <? buffer_size_tolerance c)
  && (0 <? buffer_compact_threshold c) && (0 <? worker_n c).

(** ** Observable steps

    The steps of the facade that matter for ordering: calls into the
    Root that replace it, the fence and the barrier, the release of a
    Root, and the line written to [std::cerr]. *)
Inductive event (root_t : Type) : Type :=
| ev_create_new_root (old_root : root_t)
| ev_store_root (new_root : root_t)
| ev_memory_fence
| ev_rcu_barrier
| ev_trim_root (new_root : root_t)
| ev_delete_root (old_root : root_t)
| ev_cerr_leaking (bytes : Z).

Arguments ev_create_new_root {root_t} _.
Arguments ev_store_root {root_t} _.
Arguments ev_memory_fence {root_t}.
Arguments ev_rcu_barrier {root_t}.
Arguments ev_trim_root {root_t} _.
Arguments ev_delete_root {root_t} _.
Arguments ev_cerr_leaking {root_t} _.

Definition is_sync_event {root_t : Type} (e : event root_t) : bool :=
  match e with
  | ev_memory_fence | ev_rcu_barrier => true
  | _ => false
  end.

(** ** The process state outside the index object *)

Record world (root_t : Type) : Type := mkWorld {
  allocated_bytes : Z;             (* xindex::_::allocated_bytes *)
  config : index_config_t;         (* the global config *)
  rcu_status : list Z;             (* one epoch counter per worker *)
  trace : list (event root_t)      (* steps taken so far, oldest first *)
}.

Arguments mkWorld {root_t} _ _ _ _.
Arguments allocated_bytes {root_t} _.
Arguments config {root_t} _.
Arguments rcu_status {root_t} _.
Arguments trace {root_t} _.

(** ** Outcomes: a result, a fatal stop, or a loop that is still running *)

Inductive fault : Type :=
| invariant_failed (cond : string)   (* INVARIANT(cond): abort() *)
| assert_failed (cond : string)      (* assert(cond) without NDEBUG *)
| null_deref                         (* a call through root == nullptr *)
| out_of_bounds.                     (* rcu_status[worker_id] past its end *)

Inductive outcome (W A : Type) : Type :=
| Done (a : A) (w : W)
| Fault (f : fault) (w : W)
| Spin (w : W).

Arguments Done {W A} _ _.
Arguments Fault {W A} _ _.
Arguments Spin {W A} _.

Definition M (W A : Type) : Type := W -> outcome W A.

Definition ret {W A : Type} (a : A) : M W A := fun w => Done a w.

Definition bind {W A B : Type} (m : M W A) (k : A -> M W B) : M W B :=
  fun w =>
    match m w with
    | Done a w' => k a w'
    | Fault f w' => Fault f w'
    | Spin w' => Spin w'
    end.

Definition raise {W A : Type} (f : fault) : M W A := fun w => Fault f w.

Definition returned {W A : Type} (o : outcome W A) : option A :=
  match o with Done a _ => Some a | _ => None end.

Definition final_world {W A : Type} (o : outcome W A) : W :=
  match o with Done _ w | Fault _ w | Spin w => w end.

Declare Scope xi_scope.
Delimit Scope xi_scope with xi.
Notation "x <- c ;; k" := (bind c (fun x => k))
  (at level 61, c at next level, right associativity) : xi_scope.
Notation "' p <- c ;; k" := (bind c (fun x => let 'p := x in k))
  (at level 61, p pattern, c at next level, right associativity) : xi_scope.
Notation "c ;;; k" := (bind c (fun _ => k))
  (at level 61, right associativity) : xi_scope.

(** ** The interface of [root_t]

    Every method of the Root runs on the Root object and on the global
    allocation counter, which the files of the Root update as they
    allocate and release Groups, Buffers and Models.  A method therefore
    maps the Root and the counter to its answer, the Root afterwards and
    the counter afterwards. *)
Definition root_method (root_t A : Type) : Type :=
  root_t -> Z -> A * (root_t * Z).

Class Root (key_t val_t : Type) : Type := {
  root_t : Type;
  (** [sizeof(root_t)] *)
  sizeof_root_t : Z;
  sizeof_root_t_range : 0 < sizeof_root_t < 2 ^ 64;
  (** [operator<] of [key_t], as [std::is_sorted] uses it *)
  key_less : key_t -> key_t -> bool;
  (** [new root_t()] *)
  root_new : root_t;
  (** [void init(keys, vals)] *)
  root_init : list key_t -> list val_t -> root_method root_t unit;
  (** [result_t get(key, val&)]: the answer and [val] afterwards *)
  root_get : key_t -> val_t -> root_method root_t (result_t * val_t);
  (** [result_t put(key, val, worker_id)] *)
  root_put : key_t -> val_t -> Z -> root_method root_t result_t;
  (** [result_t remove(key)] *)
  root_remove : key_t -> root_method root_t result_t;
  (** [size_t scan(begin, n, result&)]: the count and [result] afterwards *)
  root_scan : key_t -> Z -> list (key_t * val_t) ->
              root_method root_t (Z * list (key_t * val_t));
  (** [size_t range_scan(begin, end, result&)] *)
  root_range_scan : key_t -> key_t -> list (key_t * val_t) ->
                    root_method root_t (Z * list (key_t * val_t));
  (** [void force_adjustment_sync(bool& should_update_array)]: the flag
      afterwards *)
  root_force_adjustment_sync : bool -> root_method root_t bool;
  (** [root_t* create_new_root()]: the new Root; the old one is left as
      it is *)
  root_create_new_root : root_t -> Z -> root_t * Z;
  (** [void trim_root()] *)
  root_trim_root : root_method root_t unit;
  (** [~root_t()], run by [delete]: the counter afterwards *)
  root_dtor : root_t -> Z -> Z;
  (** [ByteSize byte_size() const] *)
  root_byte_size : root_t -> ByteSize
}.

(** [std::is_sorted(keys.begin(), keys.end())]: no element is less than
    the one before it. *)
Fixpoint is_sorted {key_t : Type} (less : key_t -> key_t -> bool)
         (keys : list key_t) : bool :=
  match keys with
  | [] => true
  | k :: rest =>
      match rest with
      | [] => true
      | k' :: _ => negb (less k' k) && is_sorted less rest
      end
  end.

Section Facade.

Context {key_t val_t : Type} {R : Root key_t val_t}.

(** [true] when the translation unit is compiled with [NDEBUG], which
    turns [assert] into nothing. *)
Variable ndebug : bool.

(** [sizeof(XIndex)], the constant [byte_size] starts from. *)
Variable sizeof_XIndex : Z.

Local Open Scope xi_scope.

Local Abbreviation W := (world root_t).

(** *** The index object *)

Record XIndex : Type := mkXIndex {
  root : option root_t;      (* root_t* volatile root; None is nullptr *)
  bg_num : Z;
  bg_running : bool
}.

Definition set_root (p : option root_t) (this : XIndex) : XIndex :=
  {| root := p; bg_num := bg_num this; bg_running := bg_running this |}.

(** *** Updates of the process state *)

Definition set_allocated_bytes (n : Z) (w : W) : W :=
  mkWorld n (config w) (rcu_status w) (trace w).

Definition set_config (c : index_config_t) (w : W) : W :=
  mkWorld (allocated_bytes w) c (rcu_status w) (trace w).

Definition set_rcu_status (s : list Z) (w : W) : W :=
  mkWorld (allocated_bytes w) (config w) s (trace w).

Definition log (e : event root_t) : M W unit :=
  fun w => Done tt (mkWorld (allocated_bytes w) (config w) (rcu_status w)
                            (trace w ++ [e])).

Definition read_allocated_bytes : M W Z := fun w => Done (allocated_bytes w) w.
Definition write_allocated_bytes (n : Z) : M W unit :=
  fun w => Done tt (set_allocated_bytes n w).
Definition read_config : M W index_config_t := fun w => Done (config w) w.
Definition write_config (c : index_config_t) : M W unit :=
  fun w => Done tt (set_config c w).

(** A method called on the Root [r]. *)
Definition call_root {A : Type} (m : root_method root_t A) (r : root_t)
  : M W (A * root_t) :=
  fun w =>
    let '(a, (r', n)) := m r (allocated_bytes w) in
    Done (a, r') (set_allocated_bytes n w).

(** [root->...]: a call through a null pointer has no defined result. *)
Definition deref (p : option root_t) : M W root_t :=
  match p with
  | Some r => ret r
  | None => raise null_deref
  end.

(** *** Helpers of [xindex_util.h] *)

(** Modelled from the spec: [INVARIANT(cond)] is a macro of
    [xindex_util.h]; a violated configuration check is fatal at
    construction, in every build. *)
Definition INVARIANT (cond : bool) (text : string) : M W unit :=
  if cond then ret tt else raise (invariant_failed text).

(** [assert(cond)] of [<cassert>]. *)
Definition assert (cond : bool) (text : string) : M W unit :=
  if ndebug then ret tt
  else if cond then ret tt else raise (assert_failed text).

(** Modelled from the spec: [rcu_init] of [xindex_util.h] gives each of
    the [config.worker_n] workers an epoch counter, starting at zero. *)
Definition rcu_init : M W unit :=
  fun w => Done tt (set_rcu_status (repeat 0 (Z.to_nat (worker_n (config w)))) w).

Fixpoint bump (status : list Z) (i : nat) : list Z :=
  match status, i with
  | [], _ => []
  | s :: rest, O => size_wrap (s + 1) :: rest
  | s :: rest, S j => s :: bump rest j
  end.

(** Modelled from the spec: [rcu_progress(worker_id)] of [xindex_util.h]
    advances the epoch counter of that worker and nothing else.  An
    identifier outside [[0, worker_n)] indexes past the array, which has
    no defined result. *)
Definition rcu_progress (worker_id : Z) : M W unit :=
  fun w =>
    if (0 <=? worker_id) && (worker_id <? Z.of_nat (List.length (rcu_status w)))
    then Done tt (set_rcu_status (bump (rcu_status w) (Z.to_nat worker_id)) w)
    else Fault out_of_bounds w.

(** Modelled from the spec: [memory_fence] and [rcu_barrier] of
    [xindex_util.h] order and delay the calling thread; they change
    neither the Root nor the counter.  The barrier returns once every
    worker has advanced its epoch. *)
Definition memory_fence : M W unit := log ev_memory_fence.
Definition rcu_barrier : M W unit := log ev_rcu_barrier.

(** *** Constructor and destructor *)

(** [XIndex(keys, vals, worker_num, bg_n)].  The constructor does not
    start the background thread ([start_bg()] is commented out) and does
    not assign [bg_running]; the flag is taken as lowered. *)
Definition XIndex_ctor (keys : list key_t) (vals : list val_t)
           (worker_num bg_n : Z) : M W XIndex :=
  write_allocated_bytes 0 ;;;
  cfg <- read_config ;;
  write_config (set_worker_n worker_num cfg) ;;;
  cfg <- read_config ;;
  INVARIANT (0 <? root_error_bound cfg) "config.root_error_bound > 0" ;;;
  INVARIANT (0 <? root_memory_constraint cfg)
            "config.root_memory_constraint > 0" ;;;
  INVARIANT (0 <? group_error_bound cfg) "config.group_error_bound > 0" ;;;
  INVARIANT (0 <? group_error_tolerance cfg)
            "config.group_error_tolerance > 0" ;;;
  INVARIANT (0 <? buffer_size_bound cfg) "config.buffer_size_bound > 0" ;;;
  INVARIANT (0 <? buffer_size_tolerance cfg)
            "config.buffer_size_tolerance > 0" ;;;
  INVARIANT (0 <? buffer_compact_threshold cfg)
            "config.buffer_compact_threshold > 0" ;;;
  INVARIANT (0 <? worker_n cfg) "config.worker_n > 0" ;;;
  assert (is_sorted key_less keys)
         "std::is_sorted(keys.begin(), keys.end())" ;;;
  rcu_init ;;;
  n <- read_allocated_bytes ;;
  write_allocated_bytes (size_add n sizeof_root_t) ;;;
  '(_, r) <- call_root (root_init keys vals) root_new ;;
  ret {| root := Some r; bg_num := bg_n; bg_running := false |}.

(** [delete p]: the destructor of the Root runs, then the object is
    released. *)
Definition delete_root (r : root_t) : M W unit :=
  n <- read_allocated_bytes ;;
  write_allocated_bytes (root_dtor r n) ;;;
  log (ev_delete_root r).

(** [~XIndex()] *)
Definition XIndex_dtor (this : XIndex) : M W XIndex :=
  this' <- match root this with
           | Some r =>
               n <- read_allocated_bytes ;;
               assert (sizeof_root_t <? n)
                      "_::allocated_bytes > bytes_to_delete" ;;;
               write_allocated_bytes (size_sub n sizeof_root_t) ;;;
               delete_root r ;;;
               ret (set_root None this)
           | None => ret this
           end ;;
  n <- read_allocated_bytes ;;
  (if 0 <? n then log (ev_cerr_leaking n) else ret tt) ;;;
  ret this'.

(** *** The five operations *)

(** [bool get(key, val&, worker_id)]: the answer and [val] afterwards *)
Definition XIndex_get (this : XIndex) (key : key_t) (val : val_t)
           (worker_id : Z) : M W ((bool * val_t) * XIndex) :=
  rcu_progress worker_id ;;;
  r <- deref (root this) ;;
  '((res, val'), r') <- call_root (root_get key val) r ;;
  ret ((result_eqb res ok, val'), set_root (Some r') this).

(** The loop of [put]: one turn per unit of [fuel]. *)
Fixpoint put_loop (fuel : nat) (this : XIndex) (key : key_t) (val : val_t)
         (worker_id : Z) : M W (result_t * XIndex) :=
  match fuel with
  | O => fun w => Spin w
  | S fuel' =>
      r <- deref (root this) ;;
      '(res, r') <- call_root (root_put key val worker_id) r ;;
      match res with
      | retry =>
          rcu_progress worker_id ;;;
          put_loop fuel' (set_root (Some r') this) key val worker_id
      | _ => ret (res, set_root (Some r') this)
      end
  end.

(** [bool put(key, val, worker_id)] *)
Definition XIndex_put (fuel : nat) (this : XIndex) (key : key_t)
           (val : val_t) (worker_id : Z) : M W (bool * XIndex) :=
  rcu_progress worker_id ;;;
  '(res, this') <- put_loop fuel this key val worker_id ;;
  ret (result_eqb res ok, this').

(** [bool remove(key, worker_id)] *)
Definition XIndex_remove (this : XIndex) (key : key_t) (worker_id : Z)
  : M W (bool * XIndex) :=
  rcu_progress worker_id ;;;
  r <- deref (root this) ;;
  '(res, r') <- call_root (root_remove key) r ;;
  ret (result_eqb res ok, set_root (Some r') this).

(** [size_t scan(begin, n, result&, worker_id)] *)
Definition XIndex_scan (this : XIndex) (begin : key_t) (n : Z)
           (result : list (key_t * val_t)) (worker_id : Z)
  : M W ((Z * list (key_t * val_t)) * XIndex) :=
  rcu_progress worker_id ;;;
  r <- deref (root this) ;;
  '(out, r') <- call_root (root_scan begin n result) r ;;
  ret (out, set_root (Some r') this).

(** [size_t range_scan(begin, end, result&, worker_id)] *)
Definition XIndex_range_scan (this : XIndex) (begin end_ : key_t)
           (result : list (key_t * val_t)) (worker_id : Z)
  : M W ((Z * list (key_t * val_t)) * XIndex) :=
  rcu_progress worker_id ;;;
  r <- deref (root this) ;;
  '(out, r') <- call_root (root_range_scan begin end_ result) r ;;
  ret (out, set_root (Some r') this).

(** *** Adjustment *)

(** [bg_info_t], with the fields [background] reads and writes (the
    pointer to the Root pointer is the index object itself). *)
Record bg_info_t : Type := mkBgInfo {
  bg_i : Z;
  bg_n : Z;
  started : bool;
  finished : bool;
  running : bool;
  should_update_array : bool
}.

(** [info[bg_i].finished = false; info[bg_i].should_update_array = false] *)
Definition clear_round (i : bg_info_t) : bg_info_t :=
  {| bg_i := bg_i i; bg_n := bg_n i; started := started i;
     finished := false; running := running i;
     should_update_array := false |}.

(** One turn of [while (index.bg_running)] in [background], from the
    point where every worker has reported [finished]: [info] is the
    vector as the coordinator finds it there.  The statistics printed by
    [DEBUG_THIS] after the old Root is released are left out. *)
Definition bg_round (this : XIndex) (info : list bg_info_t)
  : M W (XIndex * list bg_info_t) :=
  let flag :=
    fold_left (fun acc i => acc || should_update_array i) info false in
  let info' := map clear_round info in
  this' <- (if flag then
              old_root <- deref (root this) ;;
              n <- read_allocated_bytes ;;
              let '(new_root, n') := root_create_new_root old_root n in
              write_allocated_bytes n' ;;;
              log (ev_create_new_root old_root) ;;;
              log (ev_store_root new_root) ;;;
              memory_fence ;;;
              rcu_barrier ;;;
              '(_, new_root') <- call_root root_trim_root new_root ;;
              log (ev_trim_root new_root) ;;;
              n <- read_allocated_bytes ;;
              assert (sizeof_root_t <? n)
                     "_::allocated_bytes > bytes_to_delete" ;;;
              write_allocated_bytes (size_sub n sizeof_root_t) ;;;
              delete_root old_root ;;;
              ret (set_root (Some new_root') this)
            else ret this) ;;
  memory_fence ;;;
  rcu_barrier ;;;
  ret (this', info').

(** The turns of the coordinator, one per vector of [rounds], as long as
    [bg_running] holds. *)
Fixpoint bg_rounds (this : XIndex) (rounds : list (list bg_info_t))
  : M W XIndex :=
  match rounds with
  | [] => ret this
  | info :: rest =>
      '(this', _) <- bg_round this info ;;
      bg_rounds this' rest
  end.

(** [void* background(void* this_)], for a run in which [bg_running]
    holds for [length rounds] turns.  Creating and joining the worker
    threads is left to the environment. *)
Definition background (this : XIndex) (rounds : list (list bg_info_t))
  : M W XIndex :=
  if bg_num this =? 0 then ret this else bg_rounds this rounds.

(** [void terminate_bg()] *)
Definition XIndex_terminate_bg (this : XIndex) : M W XIndex :=
  cfg <- read_config ;;
  write_config (set_exited true cfg) ;;;
  ret {| root := root this; bg_num := bg_num this; bg_running := false |}.

(** [void force_adjustment_sync()].  The statistics printed by
    [DEBUG_THIS] are left out. *)
Definition XIndex_force_adjustment_sync (this : XIndex) : M W XIndex :=
  match root this with
  | None => ret this
  | Some r =>
      '(flag, r1) <- call_root (root_force_adjustment_sync false) r ;;
      if flag then
        let old_root := r1 in
        n <- read_allocated_bytes ;;
        let '(new_root, n') := root_create_new_root old_root n in
        write_allocated_bytes n' ;;;
        log (ev_create_new_root old_root) ;;;
        log (ev_store_root new_root) ;;;
        '(_, new_root') <- call_root root_trim_root new_root ;;
        log (ev_trim_root new_root) ;;;
        n <- read_allocated_bytes ;;
        assert (sizeof_root_t <? n)
               "_::allocated_bytes > bytes_to_delete" ;;;
        write_allocated_bytes (size_sub n sizeof_root_t) ;;;
        delete_root old_root ;;;
        ret (set_root (Some new_root') this)
      else ret (set_root (Some r1) this)
  end.

(** [_::ByteSize byte_size() const] *)
Definition XIndex_byte_size (this : XIndex) : ByteSize :=
  let size := size_wrap sizeof_XIndex in
  let total_size := {| allocated := size; used := size |} in
  match root this with
  | Some r => ByteSize_add_assign total_size (root_byte_size r)
  | None => total_size
  end.

End Facade.

Arguments XIndex {key_t val_t R}.
Arguments mkXIndex {key_t val_t R} _ _ _.

(** * A Root after the spec

    The files of the Root, the Group, the Buffer and the Model are not
    among the sources.  The module below follows sections 3 and 4 of the
    specification, over integer keys and values.  A learned model
    together with its error-bounded search finds the position of a key
    exactly; the model here is that exact search. *)
Module SpecRoot.

(** Modelled from the spec: the states of a Group,
    [stable -> compacting -> (stable | split_needed)]. *)
Inductive group_state : Type := stable | compacting | split_needed.

(** Modelled from the spec: a Group owns a key range that starts at
    [pivot], a sorted array of pairs and a write buffer whose entries are
    pending; a removed key is a tombstone ([None]) in the buffer. *)
Record group_t : Type := mkGroup {
  pivot : Z;
  data : list (Z * Z);
  buffer : list (Z * option Z);
  state : group_state
}.

(** Modelled from the spec: the Root is the ascending sequence of its
    Groups. *)
Record node : Type := mkRoot { groups : list group_t }.

Fixpoint array_find (k : Z) (a : list (Z * Z)) : option Z :=
  match a with
  | [] => None
  | (k', v) :: rest => if k' =? k then Some v else array_find k rest
  end.

Fixpoint buffer_find (k : Z) (b : list (Z * option Z)) : option (option Z) :=
  match b with
  | [] => None
  | (k', e) :: rest => if k' =? k then Some e else buffer_find k rest
  end.

(** Modelled from the spec: the Buffer's [put] inserts or overwrites; the
    buffer is kept in key order. *)
Fixpoint buffer_put (k : Z) (e : option Z) (b : list (Z * option Z))
  : list (Z * option Z) :=
  match b with
  | [] => [(k, e)]
  | (k', e') :: rest =>
      if k <? k' then (k, e) :: b
      else if k =? k' then (k, e) :: rest
      else (k', e') :: buffer_put k e rest
  end.

(** Modelled from the spec: the Group's [get]; an entry of the buffer
    takes precedence over the array, and a tombstone hides the key. *)
Definition group_get (k : Z) (g : group_t) : option Z :=
  match buffer_find k (buffer g) with
  | Some e => e
  | None => array_find k (data g)
  end.

(** Modelled from the spec: the Group's [put] goes to the buffer, and
    signals [retry] while a structural change of the Group is under way. *)
Definition group_put (k v : Z) (g : group_t) : result_t * group_t :=
  match state g with
  | stable =>
      (ok, mkGroup (pivot g) (data g) (buffer_put k (Some v) (buffer g)) stable)
  | _ => (retry, g)
  end.

(** Modelled from the spec: the Group's [remove] leaves a tombstone. *)
Definition group_remove (k : Z) (g : group_t) : result_t * group_t :=
  match group_get k g with
  | Some _ =>
      (ok, mkGroup (pivot g) (data g) (buffer_put k None (buffer g)) (state g))
  | None => (not_found, g)
  end.

(** Modelled from the spec: the merge-walk of the array and the buffer in
    ascending key order. *)
Fixpoint merge_walk (a : list (Z * Z)) (b : list (Z * option Z))
  : list (Z * option Z) :=
  let fix walk_buffer (b : list (Z * option Z)) : list (Z * option Z) :=
    match a, b with
    | [], _ => b
    | (ka, va) :: a', [] => (ka, Some va) :: merge_walk a' []
    | (ka, va) :: a', (kb, e) :: b' =>
        if ka <? kb then (ka, Some va) :: merge_walk a' b
        else if ka =? kb then (kb, e) :: merge_walk a' b'
        else (kb, e) :: walk_buffer b'
    end
  in walk_buffer b.

Fixpoint honor_tombstones (l : list (Z * option Z)) : list (Z * Z) :=
  match l with
  | [] => []
  | (k, Some v) :: rest => (k, v) :: honor_tombstones rest
  | (_, None) :: rest => honor_tombstones rest
  end.

(** The pairs a Group shows, in ascending key order. *)
Definition group_visible (g : group_t) : list (Z * Z) :=
  honor_tombstones (merge_walk (data g) (buffer g)).

Definition visible (r : node) : list (Z * Z) :=
  flat_map group_visible (groups r).

Fixpoint skip_below (begin : Z) (l : list (Z * Z)) : list (Z * Z) :=
  match l with
  | [] => []
  | (k, v) :: rest => if k <? begin then skip_below begin rest else l
  end.

Fixpoint take_below (end_ : Z) (l : list (Z * Z)) : list (Z * Z) :=
  match l with
  | [] => []
  | (k, v) :: rest => if k <? end_ then (k, v) :: take_below end_ rest else []
  end.

Fixpoint take {A : Type} (l : list A) (n : nat) : list A :=
  match l, n with
  | [], _ | _, O => []
  | x :: rest, S m => x :: take rest m
  end.

Fixpoint drop {A : Type} (l : list A) (n : nat) : list A :=
  match l, n with
  | [], _ => []
  | _, O => l
  | _ :: rest, S m => drop rest m
  end.

(** Modelled from the spec: the Root routes a key to the Group whose
    range holds it, the last Group whose [pivot] is at most the key (the
    first Group also takes the keys below its [pivot]). *)
Fixpoint routed {A : Type} (k : Z) (f : group_t -> A * group_t)
         (default : A) (gs : list group_t) : A * list group_t :=
  match gs with
  | [] => (default, [])
  | g :: rest =>
      match rest with
      | g' :: _ =>
          if pivot g' <=? k
          then let '(a, rest') := routed k f default rest in (a, g :: rest')
          else let '(a, g1) := f g in (a, g1 :: rest)
      | [] => let '(a, g1) := f g in (a, [g1])
      end
  end.

(** The bytes a Root accounts for besides the Root object: a header per
    Group and a slot per pair of the array and per entry of the buffer. *)
Definition sizeof_group : Z := 64.
Definition sizeof_slot : Z := 16.
Definition sizeof_root : Z := 64.

Definition group_bytes (g : group_t) : Z :=
  sizeof_group
  + sizeof_slot * Z.of_nat (List.length (data g) + List.length (buffer g)).

Definition owned (r : node) : Z :=
  fold_right (fun g acc => group_bytes g + acc) 0 (groups r).

(** Modelled from the spec: "every allocation/deallocation path must keep
    it consistent"; a method that turns the Root [r] into [r'] moves the
    counter by the difference of what they own. *)
Definition accounted {A : Type} (f : node -> A * node) : root_method node A :=
  fun r n => let '(a, r') := f r in (a, (r', size_add n (owned r' - owned r))).

Section WithCap.

(** The number of pairs above which an array is split (a cap of zero
    counts as one): it stands for the partition that keeps each Group's
    model within its error bound. *)
Variable group_cap : nat.

Definition cap : nat := Nat.max 1 group_cap.

Fixpoint chunks {A : Type} (fuel : nat) (l : list A) : list (list A) :=
  match fuel, l with
  | O, _ | _, [] => []
  | S fuel', _ =>
      take l cap :: chunks fuel' (drop l cap)
  end.

Definition group_of (pairs : list (Z * Z)) : group_t :=
  mkGroup (match pairs with (k, _) :: _ => k | [] => 0 end) pairs [] stable.

(** The Groups for a sorted sequence of pairs; an empty sequence gets one
    empty Group. *)
Definition partition_groups (pairs : list (Z * Z)) : list group_t :=
  match pairs with
  | [] => [group_of []]
  | _ => map group_of (chunks (List.length pairs) pairs)
  end.

(** Modelled from the spec: [init] partitions the sorted key set into the
    initial Groups. *)
Definition init (keys vals : list Z) : root_method node unit :=
  accounted (fun _ => (tt, mkRoot (partition_groups (combine keys vals)))).

(** Modelled from the spec: [get], [put] and [remove] route the key and
    delegate to the Group. *)
Definition get (k val : Z) : root_method node (result_t * Z) :=
  accounted (fun r =>
    let '(found, gs) :=
      routed k (fun g => (group_get k g, g)) None (groups r) in
    (match found with Some v => (ok, v) | None => (not_found, val) end,
     mkRoot gs)).

Definition put (k v worker_id : Z) : root_method node result_t :=
  accounted (fun r =>
    let '(res, gs) := routed k (group_put k v) not_found (groups r) in
    (res, mkRoot gs)).

Definition remove (k : Z) : root_method node result_t :=
  accounted (fun r =>
    let '(res, gs) := routed k (group_remove k) not_found (groups r) in
    (res, mkRoot gs)).

(** Modelled from the spec: [scan] gives up to [n] pairs from [begin] on,
    [range_scan] the pairs of [[begin, end)], both in ascending order. *)
Definition scan (begin n : Z) (result : list (Z * Z))
  : root_method node (Z * list (Z * Z)) :=
  accounted (fun r =>
    let found := take (skip_below begin (visible r)) (Z.to_nat n) in
    ((Z.of_nat (List.length found), found), r)).

Definition range_scan (begin end_ : Z) (result : list (Z * Z))
  : root_method node (Z * list (Z * Z)) :=
  accounted (fun r =>
    let found := take_below end_ (skip_below begin (visible r)) in
    ((Z.of_nat (List.length found), found), r)).

(** Modelled from the spec: compaction merges the buffer into the array
    and clears it; a Group whose array has outgrown the cap is marked
    for a split. *)
Definition compact (g : group_t) : group_t :=
  let merged := group_visible g in
  mkGroup (pivot g) merged []
          (if (cap <? List.length merged)%nat
           then split_needed else stable).

Definition needs_split (g : group_t) : bool :=
  match state g with split_needed => true | _ => false end.

(** Modelled from the spec: the synchronous round evaluates every Group
    and raises the flag when one of them needs a structural change. *)
Definition force_adjustment_sync (flag : bool) : root_method node bool :=
  accounted (fun r =>
    let gs := map compact (groups r) in
    (flag || existsb needs_split gs, mkRoot gs)).

(** Modelled from the spec: [create_new_root] builds a new Root from the
    Groups as adjusted, splitting the marked ones in range order; the old
    Root is not touched, and the new Root and its Groups are accounted
    for. *)
Definition rebuild (g : group_t) : list group_t :=
  if needs_split g then partition_groups (data g)
  else [g].

Definition create_new_root (r : node) (n : Z) : node * Z :=
  let r' := mkRoot (flat_map rebuild (groups r)) in
  (r', size_add n (sizeof_root + owned r')).

(** Modelled from the spec: [trim_root] releases staging structures of
    the rebuild; this Root keeps none. *)
Definition trim_root : root_method node unit :=
  accounted (fun r => (tt, r)).

(** Modelled from the spec: the destructor releases what the Root owns
    and accounts for it. *)
Definition dtor (r : node) (n : Z) : Z := size_sub n (owned r).

Definition byte_size (r : node) : ByteSize :=
  {| allocated := size_wrap (sizeof_root + owned r);
     used := size_wrap (sizeof_root + sizeof_slot
                        * Z.of_nat (List.length (visible r))) |}.

Lemma sizeof_root_range : 0 < sizeof_root < 2 ^ 64.
Proof. unfold sizeof_root. split; [lia | reflexivity]. Qed.

#[export] Instance spec_root : Root Z Z := {
  root_t := node;
  sizeof_root_t := sizeof_root;
  sizeof_root_t_range := sizeof_root_range;
  key_less := Z.ltb;
  root_new := mkRoot [];
  root_init := init;
  root_get := get;
  root_put := put;
  root_remove := remove;
  root_scan := scan;
  root_range_scan := range_scan;
  root_force_adjustment_sync := force_adjustment_sync;
  root_create_new_root := create_new_root;
  root_trim_root := trim_root;
  root_dtor := dtor;
  root_byte_size := byte_size
}.

End WithCap.

End SpecRoot.

(** * The concrete scenario of the specification *)

(** Modelled from the spec: a configuration whose tunables are all
    positive (the defaults of [xindex_util.h] are not among the sources);
    [worker_n] is set by the constructor. *)
Definition default_config : index_config_t :=
  {| root_error_bound := 32;
     root_memory_constraint := 1048576;
     group_error_bound := 32;
     group_error_tolerance := 4;
     buffer_size_bound := 256;
     buffer_size_tolerance := 3;
     buffer_compact_threshold := 8;
     worker_n := 0;
     exited := false |}.

(** The process before any index exists. *)
Definition boot {root_t : Type} : world root_t :=
  mkWorld 0 default_config [] [].

Section Scenario.

Variable group_cap : nat.
Variable ndebug : bool.
Variable fuel : nat.

Local Open Scope xi_scope.

Let R := SpecRoot.spec_root group_cap.

(** Construct with keys {1,3,5,7,9} and values {10,30,50,70,90},
    [worker_n = 1], no background thread; then, as worker 0: [get(5)],
    [put(4,40)], [get(4)], [remove(3)], [get(3)], [range_scan(3,8)].
    The answers of the three [get]s and of the scan are returned. *)
Definition scenario
  : M (world (@root_t _ _ R))
      ((bool * Z) * (bool * Z) * (bool * Z) * (Z * list (Z * Z))) :=
  idx <- XIndex_ctor (R := R) ndebug [1; 3; 5; 7; 9] [10; 30; 50; 70; 90] 1 0 ;;
  '(get5, idx) <- XIndex_get idx 5 0 0 ;;
  '(_, idx) <- XIndex_put fuel idx 4 40 0 ;;
  '(get4, idx) <- XIndex_get idx 4 0 0 ;;
  '(_, idx) <- XIndex_remove idx 3 0 ;;
  '(get3, idx) <- XIndex_get idx 3 0 0 ;;
  '(scanned, idx) <- XIndex_range_scan idx 3 8 [] 0 ;;
  ret (get5, get4, get3, scanned).

End Scenario.

(** * Notions the properties are stated with *)

(** The steps an outcome added to the trace of the world it started in. *)
Definition steps_since {root_t A : Type} (w : world root_t)
           (o : outcome (world root_t) A) : list (event root_t) :=
  skipn (List.length (trace w)) (trace (final_world o)).

(** A step without the Root it was taken on. *)
Inductive step_kind : Type :=
| create_new_root_step | store_root_step | memory_fence_step
| rcu_barrier_step | trim_root_step | delete_root_step | cerr_leaking_step.

Definition kind_of {root_t : Type} (e : event root_t) : step_kind :=
  match e with
  | ev_create_new_root _ => create_new_root_step
  | ev_store_root _ => store_root_step
  | ev_memory_fence => memory_fence_step
  | ev_rcu_barrier => rcu_barrier_step
  | ev_trim_root _ => trim_root_step
  | ev_delete_root _ => delete_root_step
  | ev_cerr_leaking _ => cerr_leaking_step
  end.

(** No Root is released unless a barrier has been passed since the last
    Root pointer was stored; [passed] says whether one has been. *)
Fixpoint freed_after_barrier {root_t : Type} (passed : bool)
         (steps : list (event root_t)) : bool :=
  match steps with
  | [] => true
  | ev_store_root _ :: rest => freed_after_barrier false rest
  | ev_rcu_barrier :: rest => freed_after_barrier true rest
  | ev_delete_root _ :: rest => passed && freed_after_barrier passed rest
  | _ :: rest => freed_after_barrier passed rest
  end.

Section Notions.

Context {key_t val_t : Type} {R : Root key_t val_t}.

Local Open Scope xi_scope.

(** One call [root->put(key, val, worker_id)] of the loop of [put]. *)
Definition attempt (this : XIndex) (key : key_t) (val : val_t)
           (worker_id : Z) : M (world root_t) (result_t * XIndex) :=
  r <- deref (root this) ;;
  '(res, r') <- call_root (root_put key val worker_id) r ;;
  ret (res, set_root (Some r') this).








(** *** Accounting of the Root

    [owned r] is what the Root [r] has taken from the allocator besides
    the Root object.  A method is consistent when it moves the counter
    by the change of [owned]. *)
Variable owned : root_t -> Z.

Definition consistent {A : Type} (m : root_method root_t A) : Prop :=
  forall r n,
    snd (snd (m r n)) = size_add n (owned (fst (snd (m r n))) - owned r).

Record root_accounts : Prop := {
  acc_new : owned root_new = 0;
  acc_init : forall keys vals, consistent (root_init keys vals);
  acc_get : forall key val, consistent (root_get key val);
  acc_put : forall key val worker_id, consistent (root_put key val worker_id);
  acc_remove : forall key, consistent (root_remove key);
  acc_scan : forall begin n result, consistent (root_scan begin n result);
  acc_range_scan :
    forall begin end_ result, consistent (root_range_scan begin end_ result);
  acc_force : forall flag, consistent (root_force_adjustment_sync flag);
  acc_trim : consistent root_trim_root;
  acc_create :
    forall r n,
      snd (root_create_new_root r n)
      = size_add n (sizeof_root_t + owned (fst (root_create_new_root r n)));
  acc_dtor : forall r n, root_dtor r n = size_sub n (owned r)
}.

(** The bytes of the live Root of an index: the Root object and what it
    owns. *)
Definition live (this : XIndex) : Z :=
  match root this with
  | Some r => sizeof_root_t + owned r
  | None => 0
  end.

(** The counter stands at [base] plus the bytes of the live Root. *)
Definition balanced (base : Z) (this : XIndex) (w : world root_t) : Prop :=
  allocated_bytes w = size_wrap (base + live this).

(** An operation on [this] keeps the balance: from a balanced state it
    returns in a balanced state, for the index it leaves ([proj] picks it
    from what the operation returns). *)
Definition keeps_balance {A : Type} (base : Z) (this : XIndex)
           (proj : A -> XIndex) (op : M (world root_t) A) : Prop :=
  forall w a w',
    balanced base this w -> op w = Done a w' -> balanced base (proj a) w'.

End Notions.

(** * The workers of the background round, after the spec

    [root_t::do_adjustment], which the worker threads of [background]
    run, is not among the sources. *)
Module SpecWorker.

Import SpecRoot.






End SpecWorker.

(** * States used as examples *)

Module Examples.

Import SpecRoot.

Definition busy_world : world node :=
  mkWorld (sizeof_root + 96) (set_worker_n 1 default_config) [0] [].

(** An index with Groups of at most two pairs that has taken two more
    keys into its first Group, so that the next adjustment splits it. *)
Definition crowded (ndebug : bool)
  : outcome (world node) (XIndex (R := spec_root 2)) :=
  bind (XIndex_ctor (R := spec_root 2) ndebug
                    [1; 3; 5; 7; 9] [10; 30; 50; 70; 90] 1 0)
       (fun idx =>
          bind (XIndex_put 1 idx 2 20 0)
               (fun '(_, idx) =>
                  bind (XIndex_put 1 idx 4 40 0)
                       (fun '(_, idx) => ret idx)))
       boot.

Definition crowded_index : XIndex (R := spec_root 2) :=
  match crowded false with
  | Done idx _ => idx
  | _ => mkXIndex (R := spec_root 2) None 0 false
  end.

Definition crowded_world : world node := final_world (crowded false).

(** The crowded index once its Groups have been evaluated: the first
    Group is compacted and marked for a split. *)
Definition marked : bool * (node * Z) :=
  match root crowded_index with
  | Some r => force_adjustment_sync 2 false r (allocated_bytes crowded_world)
  | None => (false, (mkRoot [], 0))
  end.

Definition marked_index : XIndex (R := spec_root 2) :=
  mkXIndex (R := spec_root 2) (Some (fst (snd marked))) 0 false.

Definition marked_world : world node :=
  mkWorld (snd (snd marked)) (config crowded_world)
          (rcu_status crowded_world) (trace crowded_world).

(** The index of the scenario, for two workers. *)
Definition shared (ndebug : bool)
  : outcome (world node) (XIndex (R := spec_root 5)) :=
  XIndex_ctor (R := spec_root 5) ndebug
              [1; 3; 5; 7; 9] [10; 30; 50; 70; 90] 2 0 boot.

Definition shared_index : XIndex (R := spec_root 5) :=
  match shared false with
  | Done idx _ => idx
  | _ => mkXIndex (R := spec_root 5) None 0 false
  end.

Definition shared_world : world node := final_world (shared false).

(** What one worker reports at the end of a round that found a Group to
    split. *)
Definition one_worker_flagged : list bg_info_t :=
  [mkBgInfo 0 1 true true true true].





End Examples.

(** * Properties of the facade *)

Lemma size_add_wrap (x y : Z) : size_add (size_wrap x) y = size_wrap (x + y).
Proof. unfold size_add, size_wrap. apply Zplus_mod_idemp_l. Qed.

Lemma size_sub_wrap (x y : Z) : size_sub (size_wrap x) y = size_wrap (x - y).
Proof. unfold size_sub, size_wrap. apply Zminus_mod_idemp_l. Qed.

Lemma size_wrap_small (x : Z) : 0 <= x < 2 ^ 64 -> size_wrap x = x.
Proof. intros H. unfold size_wrap. apply Z.mod_small. exact H. Qed.

Lemma skipn_length_app {A : Type} (l s : list A) :
  skipn (List.length l) (l ++ s) = s.
Proof. induction l as [|x l IH]; simpl; auto. Qed.

Lemma steps_since_app {root_t A : Type} (w : world root_t)
      (o : outcome (world root_t) A) (steps : list (event root_t)) :
  trace (final_world o) = trace w ++ steps -> steps_since w o = steps.
Proof. intros H. unfold steps_since. rewrite H. apply skipn_length_app. Qed.

(** Unfolds a path of the facade down to the Root's methods. *)
Ltac open_path :=
  unfold bind, deref, raise, ret, call_root, delete_root, memory_fence,
    rcu_barrier, log, assert, read_allocated_bytes, write_allocated_bytes,
    set_allocated_bytes; simpl.

(** Brings a trace to the form [trace w ++ steps] and reads [steps]. *)
Ltac read_steps :=
  apply steps_since_app; simpl; rewrite <- ?app_assoc; reflexivity.

Ltac settle_steps :=
  repeat first
    [ erewrite steps_since_app
        by (simpl; rewrite <- ?app_assoc; reflexivity)
    | erewrite steps_since_app by (simpl; symmetry; apply app_nil_r) ].

Section FacadeProperties.

Context {key_t val_t : Type} {R : Root key_t val_t}.
Variable ndebug : bool.

Local Open Scope xi_scope.

Lemma bump_length (status : list Z) (i : nat) :
  List.length (bump status i) = List.length status.
Proof.
  revert i. induction status as [|s rest IH]; intros [|j]; simpl; auto.
Qed.


Lemma rcu_progress_done (worker_id : Z) (w w' : world root_t) (u : unit) :
  rcu_progress worker_id w = Done u w' ->
  0 <= worker_id < Z.of_nat (List.length (rcu_status w))
  /\ w' = set_rcu_status (bump (rcu_status w) (Z.to_nat worker_id)) w.
Proof.
  unfold rcu_progress.
  destruct (0 <=? worker_id) eqn:Hlo; simpl; [|discriminate].
  destruct (worker_id <? Z.of_nat (List.length (rcu_status w))) eqn:Hhi;
    [|discriminate].
  intros H. injection H as <-.
  apply Z.leb_le in Hlo. apply Z.ltb_lt in Hhi. auto.
Qed.

(** C9.  [force_adjustment_sync] on an index without a Root returns at
    once: the index and the whole process state, the allocation counter
    and the trace of steps included, are as before. *)
Theorem force_adjustment_sync_without_root (this : XIndex) (w : world root_t) :
  root this = None ->
  XIndex_force_adjustment_sync ndebug this w = Done this w.
Proof.
  intros Hnull. unfold XIndex_force_adjustment_sync.
  rewrite Hnull. reflexivity.
Qed.

(** The constructor passes its eight checks exactly when the eight
    tunables are positive. *)
Lemma XIndex_ctor_checks (keys : list key_t) (vals : list val_t)
      (worker_num bg_n : Z) (w : world root_t) :
  config_positive (set_worker_n worker_num (config w)) = true ->
  XIndex_ctor ndebug keys vals worker_num bg_n w
  = (assert ndebug (is_sorted key_less keys)
            "std::is_sorted(keys.begin(), keys.end())" ;;;
     rcu_init ;;;
     n <- read_allocated_bytes ;;
     write_allocated_bytes (size_add n sizeof_root_t) ;;;
     '(_, r) <- call_root (root_init keys vals) root_new ;;
     ret {| root := Some r; bg_num := bg_n; bg_running := false |})
      (set_config (set_worker_n worker_num (config w))
                  (set_allocated_bytes 0 w)).
Proof.
  unfold config_positive. simpl. intros H.
  repeat (apply andb_prop in H; destruct H as [H ?]).
  unfold XIndex_ctor, bind at 1 2 3 4 5 6 7 8 9 10 11 12.
  simpl.
  repeat match goal with Hc : (0 <? _) = true |- _ => rewrite Hc; clear Hc end.
  reflexivity.
Qed.

(** C6.  The constructor checks the eight tunables (with [worker_n] as
    just set from its argument); when one of them is not positive it
    stops with a failed [INVARIANT] before any Root is made: the counter
    is zero, [rcu_status] and the trace are untouched. *)
Theorem XIndex_ctor_refuses_invalid_config
        (keys : list key_t) (vals : list val_t) (worker_num bg_n : Z)
        (w : world root_t) :
  config_positive (set_worker_n worker_num (config w)) = false ->
  exists cond,
    XIndex_ctor ndebug keys vals worker_num bg_n w
    = Fault (invariant_failed cond)
            (set_config (set_worker_n worker_num (config w))
                        (set_allocated_bytes 0 w)).
Proof.
  unfold config_positive. simpl. intros H.
  unfold XIndex_ctor, bind, write_allocated_bytes, read_config, write_config,
    INVARIANT, raise, ret. simpl.
  repeat match goal with
         | |- context [0 <? ?x] => destruct (0 <? x); simpl in *
         end;
    try discriminate; eexists; reflexivity.
Qed.

(** *** The worker identifier *)


(** *** The loop of [put] *)

(** A turn of the loop is one call of the Root; [retry] leads to
    [rcu_progress] and the next turn, any other answer ends the loop. *)
Lemma put_loop_turn (fuel : nat) (this : XIndex) (key : key_t) (val : val_t)
      (worker_id : Z) (w : world root_t) :
  put_loop (S fuel) this key val worker_id w
  = match attempt this key val worker_id w with
    | Done (retry, this1) w1 =>
        (rcu_progress worker_id ;;;
         put_loop fuel this1 key val worker_id) w1
    | other => other
    end.
Proof.
  simpl. unfold attempt, bind, deref.
  destruct (root this) as [r|]; simpl; [|reflexivity].
  unfold call_root.
  destruct (root_put key val worker_id r (allocated_bytes w)) as [res [r' n]].
  destruct res; reflexivity.
Qed.

Lemma put_loop_answer (fuel : nat) :
  forall (this : XIndex) (key : key_t) (val : val_t) (worker_id : Z)
         (w : world root_t) res this' w',
    put_loop fuel this key val worker_id w = Done (res, this') w' ->
    res <> retry.
Proof.
  induction fuel as [|fuel IH]; intros this key val worker_id w res this' w'.
  - discriminate.
  - rewrite put_loop_turn.
    destruct (attempt this key val worker_id w) as [[res1 this1] w1| |];
      try discriminate.
    destruct res1.
    + intros H. injection H as <- _ _. discriminate.
    + intros H. injection H as <- _ _. discriminate.
    + unfold bind.
      destruct (rcu_progress worker_id w1) as [u w2| |]; try discriminate.
      apply IH.
Qed.


(** C4.  Whenever [put] returns, what it returns is a boolean made from
    an answer of the Root other than [retry]: the loop ended on that
    answer, and the boolean says whether it was [ok]. *)
Theorem put_never_returns_retry
        (fuel : nat) (this : XIndex) (key : key_t) (val : val_t)
        (worker_id : Z) (w : world root_t) (b : bool) (this' : XIndex)
        (w' : world root_t) :
  XIndex_put fuel this key val worker_id w = Done (b, this') w' ->
  exists res w1,
    rcu_progress worker_id w = Done tt w1
    /\ put_loop fuel this key val worker_id w1 = Done (res, this') w'
    /\ res <> retry
    /\ b = result_eqb res ok.
Proof.
  unfold XIndex_put, bind.
  destruct (rcu_progress worker_id w) as [[] w1| |]; try discriminate.
  destruct (put_loop fuel this key val worker_id w1)
    as [[res this1] w2| |] eqn:Hloop; try discriminate.
  unfold ret. intros H. injection H as <- <- <-.
  exists res, w1. repeat split; auto.
  eapply put_loop_answer. exact Hloop.
Qed.





(** *** Steps and their order *)

Lemma flag_of_round (info : list bg_info_t) :
  fold_left (fun acc i => acc || should_update_array i) info false
  = existsb should_update_array info.
Proof.
  assert (H : forall b,
             fold_left (fun acc i => acc || should_update_array i) info b
             = b || existsb should_update_array info).
  { induction info as [|i info IH]; intros b; simpl.
    - now rewrite orb_false_r.
    - rewrite IH. now rewrite orb_assoc. }
  apply H.
Qed.

(** C10, as the code has it.  When the Root is there and the counter (a
    [size_t]) is above [sizeof(root_t)], so that the assertion of the
    destructor holds, the counter is positive right after the decrement,
    before the destructor of the Root runs.  The destructor of the index
    then releases the Root and writes the diagnostic exactly when the
    counter that the destructor of the Root leaves is not zero,
    reporting that value; when the destructor of the Root leaves the
    counter as it is, the diagnostic is written and reports the positive
    value. *)
Theorem dtor_counter_after_decrement
        (this : XIndex) (r : root_t) (w : world root_t) :
  root this = Some r ->
  0 <= allocated_bytes w < 2 ^ 64 ->
  sizeof_root_t < allocated_bytes w ->
  let n1 := allocated_bytes w - sizeof_root_t in
  let n2 := root_dtor r n1 in
  0 < n1
  /\ XIndex_dtor ndebug this w
     = Done (set_root None this)
            (mkWorld n2 (config w) (rcu_status w)
                     (trace w ++ ev_delete_root r
                        :: (if 0 <? n2 then [ev_cerr_leaking n2] else [])))
  /\ (n2 = n1 ->
      steps_since w (XIndex_dtor ndebug this w)
      = [ev_delete_root r; ev_cerr_leaking n1]).
Proof.
  intros Hroot Hrange Hassert n1 n2.
  pose proof sizeof_root_t_range as Hsize.
  assert (Hpos : 0 < n1) by (unfold n1; lia).
  assert (Hdtor :
            XIndex_dtor ndebug this w
            = Done (set_root None this)
                (mkWorld n2 (config w) (rcu_status w)
                   (trace w ++ ev_delete_root r
                      :: (if 0 <? n2 then [ev_cerr_leaking n2] else [])))).
  { unfold XIndex_dtor. rewrite Hroot. open_path.
    apply Z.ltb_lt in Hassert. rewrite Hassert.
    assert (Hsub : size_sub (allocated_bytes w) sizeof_root_t = n1).
    { unfold size_sub. apply size_wrap_small. unfold n1. lia. }
    destruct ndebug; simpl; rewrite Hsub; fold n2;
      destruct (0 <? n2); simpl; rewrite <- ?app_assoc; reflexivity. }
  split; [exact Hpos|]. split; [exact Hdtor|].
  intros Hsame. rewrite Hdtor. apply steps_since_app. simpl.
  rewrite Hsame. apply Z.ltb_lt in Hpos. rewrite Hpos. reflexivity.
Qed.

Lemma freed_after_barrier_weaken (steps : list (event root_t)) :
  freed_after_barrier false steps = true ->
  forall passed, freed_after_barrier passed steps = true.
Proof.
  induction steps as [|e rest IH]; intros H passed; [reflexivity|].
  destruct passed; [|exact H].
  destruct e; simpl in *; auto. discriminate.
Qed.

Lemma freed_after_barrier_app (s1 s2 : list (event root_t)) :
  forall passed,
    freed_after_barrier passed s1 = true ->
    freed_after_barrier false s2 = true ->
    freed_after_barrier passed (s1 ++ s2) = true.
Proof.
  induction s1 as [|e rest IH]; intros passed H1 H2; simpl.
  - now apply freed_after_barrier_weaken.
  - destruct e; simpl in *; auto.
    apply andb_prop in H1. destruct H1 as [-> H1]. simpl. auto.
Qed.

(** What a round adds to the trace, however it ends. *)
Lemma bg_round_trace (this : XIndex) (info : list bg_info_t)
      (w : world root_t) :
  exists steps,
    trace (final_world (bg_round ndebug this info w)) = trace w ++ steps
    /\ freed_after_barrier false steps = true.
Proof.
  unfold bg_round. rewrite flag_of_round.
  destruct (existsb should_update_array info).
  - destruct (root this) as [old_root|]; open_path.
    + destruct (root_create_new_root old_root (allocated_bytes w))
        as [new_root n1]. simpl.
      destruct (root_trim_root new_root n1) as [[] [new_root' n2]]. simpl.
      destruct ndebug; [|destruct (sizeof_root_t <? n2)]; simpl;
        rewrite <- ?app_assoc; simpl; eexists; split; reflexivity.
    + exists []. split; [symmetry; apply app_nil_r | reflexivity].
  - open_path. rewrite <- ?app_assoc. simpl. eexists. split; reflexivity.
Qed.

(** The same over the turns of a whole run. *)
Lemma bg_rounds_trace (rounds : list (list bg_info_t)) :
  forall (this : XIndex) (w : world root_t),
  exists steps,
    trace (final_world (bg_rounds ndebug this rounds w)) = trace w ++ steps
    /\ freed_after_barrier false steps = true.
Proof.
  induction rounds as [|info rest IH]; intros this w; simpl.
  - exists []. split; [symmetry; apply app_nil_r | reflexivity].
  - destruct (bg_round_trace this info w) as [s1 [Ht1 Hf1]].
    unfold bind.
    destruct (bg_round ndebug this info w) as [[this1 info1] w1| |];
      simpl in Ht1; try (exists s1; split; assumption).
    destruct (IH this1 w1) as [s2 [Ht2 Hf2]].
    exists (s1 ++ s2). split.
    + rewrite Ht2, Ht1. now rewrite app_assoc.
    + now apply freed_after_barrier_app.
Qed.

(** C2.  In a round of the coordinator no Root is released unless a
    barrier has been passed since the Root pointer was stored, however
    the round ends, and so it is over a whole run of [background].  When
    a worker has raised its flag (and the counter passes the assertion),
    the round takes exactly these steps, in this order:
    [create_new_root] on the old Root, the store of the new Root
    pointer, the memory fence, the barrier, [trim_root] on the new Root,
    the release of the old Root, and the fence and barrier that close
    every round. *)
Theorem bg_round_order
        (this : XIndex) (info : list bg_info_t) (w : world root_t) :
  freed_after_barrier false (steps_since w (bg_round ndebug this info w)) = true
  /\ (forall old_root,
      root this = Some old_root ->
      existsb should_update_array info = true ->
      let new_root := fst (root_create_new_root old_root (allocated_bytes w)) in
      let n1 := snd (root_create_new_root old_root (allocated_bytes w)) in
      let new_root' := fst (snd (root_trim_root new_root n1)) in
      let n2 := snd (snd (root_trim_root new_root n1)) in
      (ndebug = false -> sizeof_root_t < n2) ->
      returned (bg_round ndebug this info w)
      = Some (set_root (Some new_root') this, map clear_round info)
      /\ steps_since w (bg_round ndebug this info w)
         = [ev_create_new_root old_root; ev_store_root new_root;
            ev_memory_fence; ev_rcu_barrier;
            ev_trim_root new_root; ev_delete_root old_root;
            ev_memory_fence; ev_rcu_barrier])
  /\ (forall rounds,
      freed_after_barrier
        false (steps_since w (background ndebug this rounds w)) = true).
Proof.
  split; [|split].
  - destruct (bg_round_trace this info w) as [steps [Ht Hf]].
    now rewrite (steps_since_app _ _ _ Ht).
  - intros old_root Hroot Hflag new_root n1 new_root' n2 Hassert.
    unfold bg_round. rewrite flag_of_round, Hflag, Hroot. open_path.
    subst new_root' n2 new_root n1.
    destruct (root_create_new_root old_root (allocated_bytes w))
      as [new_root n1]. simpl in *.
    destruct (root_trim_root new_root n1) as [[] [new_root' n2]]. simpl in *.
    destruct ndebug; simpl.
    + split; [reflexivity | read_steps].
    + specialize (Hassert eq_refl). apply Z.ltb_lt in Hassert.
      rewrite Hassert. simpl. split; [reflexivity | read_steps].
  - intros rounds. unfold background.
    destruct (bg_num this =? 0).
    + erewrite steps_since_app by (simpl; symmetry; apply app_nil_r).
      reflexivity.
    + destruct (bg_rounds_trace rounds this w) as [steps [Ht Hf]].
      now rewrite (steps_since_app _ _ _ Ht).
Qed.

(** C3, as the code has it.  Let the workers of a round report what the
    synchronous evaluation of the Groups finds, and let the round start
    from the Root and the counter that this evaluation leaves.  Then
    [force_adjustment_sync] ends with the same answer, index, counter,
    configuration and epoch counters as the round, and takes the steps
    of the round in the same order with every memory fence and every
    barrier left out. *)
Theorem sync_is_round_without_fence_and_barrier
        (this : XIndex) (r : root_t) (info : list bg_info_t)
        (w : world root_t) :
  root this = Some r ->
  let evaluated := root_force_adjustment_sync false r (allocated_bytes w) in
  let flag := fst evaluated in
  let r1 := fst (snd evaluated) in
  let w1 := set_allocated_bytes (snd (snd evaluated)) w in
  existsb should_update_array info = flag ->
  let sync := XIndex_force_adjustment_sync ndebug this w in
  let round := bg_round ndebug (set_root (Some r1) this) info w1 in
  returned sync = option_map fst (returned round)
  /\ allocated_bytes (final_world sync) = allocated_bytes (final_world round)
  /\ config (final_world sync) = config (final_world round)
  /\ rcu_status (final_world sync) = rcu_status (final_world round)
  /\ steps_since w sync
     = filter (fun e => negb (is_sync_event e)) (steps_since w1 round).
Proof.
  intros Hroot evaluated flag r1 w1 Hflag sync round.
  subst sync round w1 r1 flag evaluated.
  unfold XIndex_force_adjustment_sync, bg_round.
  rewrite Hroot, flag_of_round, Hflag. open_path.
  destruct (root_force_adjustment_sync false r (allocated_bytes w))
    as [flag [r1 n1]]. simpl.
  destruct flag; simpl.
  - destruct (root_create_new_root r1 n1) as [new_root n2]. simpl.
    destruct (root_trim_root new_root n2) as [[] [new_root' n3]]. simpl.
    destruct ndebug; simpl;
      [| destruct (sizeof_root_t <? n3); simpl ];
      (repeat split; try reflexivity); settle_steps; reflexivity.
  - repeat split; try reflexivity. settle_steps. reflexivity.
Qed.

End FacadeProperties.

(** *** The allocation counter *)

Section FacadeAccounting.

Context {key_t val_t : Type} {R : Root key_t val_t}.
Variable ndebug : bool.
Variable owned : root_t -> Z.
Hypothesis Hacc : root_accounts owned.

Local Open Scope xi_scope.

Lemma rcu_progress_counter (worker_id : Z) (w w' : world root_t) (u : unit) :
  rcu_progress worker_id w = Done u w' ->
  allocated_bytes w' = allocated_bytes w.
Proof.
  intros H. apply rcu_progress_done in H. destruct H as [_ ->]. reflexivity.
Qed.

Lemma rcu_progress_balanced (worker_id : Z) (base : Z) (this : XIndex)
      (w w' : world root_t) (u : unit) :
  rcu_progress worker_id w = Done u w' ->
  balanced owned base this w -> balanced owned base this w'.
Proof.
  intros H Hb. unfold balanced in *.
  now rewrite (rcu_progress_counter _ _ _ _ H).
Qed.

(** A consistent method of the Root, called on the live Root, keeps the
    balance. *)
Lemma call_root_balanced {A : Type} (m : root_method root_t A)
      (base : Z) (this : XIndex) (r : root_t) (w : world root_t) :
  consistent owned m ->
  root this = Some r ->
  balanced owned base this w ->
  forall a r' w',
    call_root m r w = Done (a, r') w' ->
    balanced owned base (set_root (Some r') this) w'.
Proof.
  intros Hm Hroot Hb a r' w'. unfold call_root.
  specialize (Hm r (allocated_bytes w)).
  destruct (m r (allocated_bytes w)) as [a1 [r1 n1]]. simpl in Hm.
  intros H. injection H as <- <- <-.
  unfold balanced, live in *. rewrite Hroot in Hb. simpl.
  rewrite Hm, Hb, size_add_wrap. f_equal. lia.
Qed.

(** The shape of [get], [remove], [scan] and [range_scan]. *)
Lemma routed_call_balanced {A B : Type} (m : root_method root_t A)
      (k : A -> root_t -> B * XIndex) (base : Z) (this : XIndex)
      (worker_id : Z) :
  consistent owned m ->
  (forall a r', snd (k a r') = set_root (Some r') this) ->
  keeps_balance owned base this snd
    (rcu_progress worker_id ;;;
     r <- deref (root this) ;;
     x <- call_root m r ;;
     ret (k (fst x) (snd x))).
Proof.
  intros Hm Hk w out w' Hb. unfold bind.
  destruct (rcu_progress worker_id w) as [u w1| |] eqn:Hrcu; try discriminate.
  apply (rcu_progress_balanced _ _ _ _ _ _ Hrcu) in Hb.
  destruct (root this) as [r|] eqn:Hroot; simpl; [|discriminate].
  destruct (call_root m r w1) as [[a r'] w2| |] eqn:Hcall; try discriminate.
  unfold ret. intros H. injection H as <- <-. simpl. rewrite Hk.
  eapply call_root_balanced; eauto.
Qed.

Lemma get_balanced (base : Z) (this : XIndex) key val worker_id :
  keeps_balance owned base this snd (XIndex_get this key val worker_id).
Proof.
  intros w out w' Hb Hrun.
  apply (routed_call_balanced (root_get key val)
           (fun a r' => ((result_eqb (fst a) ok, snd a), set_root (Some r') this))
           base this worker_id (acc_get owned Hacc key val)
           (fun _ _ => eq_refl) w out w' Hb).
  rewrite <- Hrun. unfold XIndex_get, bind.
  destruct (rcu_progress worker_id w) as [u w0| |]; try reflexivity.
  destruct (deref (root this) w0) as [r0 w1| |]; try reflexivity.
  destruct (call_root (root_get key val) r0 w1) as [[[res v] r'] w2| |];
    reflexivity.
Qed.

Lemma remove_balanced (base : Z) (this : XIndex) key worker_id :
  keeps_balance owned base this snd (XIndex_remove this key worker_id).
Proof.
  intros w out w' Hb Hrun.
  apply (routed_call_balanced (root_remove key)
           (fun a r' => (result_eqb a ok, set_root (Some r') this))
           base this worker_id (acc_remove owned Hacc key)
           (fun _ _ => eq_refl) w out w' Hb).
  rewrite <- Hrun. unfold XIndex_remove, bind.
  destruct (rcu_progress worker_id w) as [u w0| |]; try reflexivity.
  destruct (deref (root this) w0) as [r0 w1| |]; try reflexivity.
  destruct (call_root (root_remove key) r0 w1) as [[res r'] w2| |];
    reflexivity.
Qed.

Lemma scan_balanced (base : Z) (this : XIndex) begin n result worker_id :
  keeps_balance owned base this snd
    (XIndex_scan this begin n result worker_id).
Proof.
  intros w out w' Hb Hrun.
  apply (routed_call_balanced (root_scan begin n result)
           (fun a r' => (a, set_root (Some r') this))
           base this worker_id (acc_scan owned Hacc begin n result)
           (fun _ _ => eq_refl) w out w' Hb).
  rewrite <- Hrun. unfold XIndex_scan, bind.
  destruct (rcu_progress worker_id w) as [u w0| |]; try reflexivity.
  destruct (deref (root this) w0) as [r0 w1| |]; try reflexivity.
  destruct (call_root (root_scan begin n result) r0 w1) as [[res r'] w2| |];
    reflexivity.
Qed.

Lemma range_scan_balanced (base : Z) (this : XIndex) begin end_ result
      worker_id :
  keeps_balance owned base this snd
    (XIndex_range_scan this begin end_ result worker_id).
Proof.
  intros w out w' Hb Hrun.
  apply (routed_call_balanced (root_range_scan begin end_ result)
           (fun a r' => (a, set_root (Some r') this))
           base this worker_id (acc_range_scan owned Hacc begin end_ result)
           (fun _ _ => eq_refl) w out w' Hb).
  rewrite <- Hrun. unfold XIndex_range_scan, bind.
  destruct (rcu_progress worker_id w) as [u w0| |]; try reflexivity.
  destruct (deref (root this) w0) as [r0 w1| |]; try reflexivity.
  destruct (call_root (root_range_scan begin end_ result) r0 w1)
    as [[res r'] w2| |]; reflexivity.
Qed.

Lemma attempt_balanced (base : Z) (this : XIndex) key val worker_id :
  keeps_balance owned base this snd (attempt this key val worker_id).
Proof.
  intros w out w' Hb. unfold attempt, bind.
  destruct (root this) as [r|] eqn:Hroot; simpl; [|discriminate].
  destruct (call_root (root_put key val worker_id) r w)
    as [[res r'] w1| |] eqn:Hcall; try discriminate.
  unfold ret. intros H. injection H as <- <-. simpl.
  eapply call_root_balanced; eauto. apply (acc_put owned Hacc).
Qed.

Lemma put_loop_balanced (base : Z) (fuel : nat) :
  forall (this : XIndex) key val worker_id,
    keeps_balance owned base this snd (put_loop fuel this key val worker_id).
Proof.
  induction fuel as [|fuel IH]; intros this key val worker_id w out w' Hb.
  - discriminate.
  - rewrite put_loop_turn.
    destruct (attempt this key val worker_id w) as [[res this1] w1| |] eqn:Hatt;
      try discriminate.
    pose proof (attempt_balanced base this key val worker_id w _ _ Hb Hatt)
      as Hb1. simpl in Hb1.
    destruct res.
    + intros H. injection H as <- <-. exact Hb1.
    + intros H. injection H as <- <-. exact Hb1.
    + unfold bind.
      destruct (rcu_progress worker_id w1) as [u w2| |] eqn:Hrcu;
        try discriminate.
      apply IH. eapply rcu_progress_balanced; eauto.
Qed.

Lemma put_balanced (base : Z) (fuel : nat) (this : XIndex) key val
      worker_id :
  keeps_balance owned base this snd (XIndex_put fuel this key val worker_id).
Proof.
  intros w out w' Hb. unfold XIndex_put, bind.
  destruct (rcu_progress worker_id w) as [u w1| |] eqn:Hrcu; try discriminate.
  apply (rcu_progress_balanced _ _ _ _ _ _ Hrcu) in Hb.
  destruct (put_loop fuel this key val worker_id w1)
    as [[res this1] w2| |] eqn:Hloop; try discriminate.
  unfold ret. intros H. injection H as <- <-.
  apply (put_loop_balanced base fuel this key val worker_id w1 _ _ Hb Hloop).
Qed.

(** The counter across the replacement of a Root: the new Root is
    accounted for by [create_new_root], [trim_root] moves the counter by
    what it releases, the facade takes off the old Root object and the
    destructor of the old Root what that one owned. *)
Lemma replacement_counter (base n : Z) (old_root new_root new_root' : root_t) :
  n = size_wrap (base + (sizeof_root_t + owned old_root)) ->
  size_sub
    (size_sub
       (size_add (size_add n (sizeof_root_t + owned new_root))
                 (owned new_root' - owned new_root))
       sizeof_root_t)
    (owned old_root)
  = size_wrap (base + (sizeof_root_t + owned new_root')).
Proof.
  intros ->. rewrite !size_add_wrap.
  unfold size_add. rewrite !size_sub_wrap. f_equal. lia.
Qed.

Lemma replacement_balanced (base : Z) (this : XIndex)
      (old_root : root_t) (n : Z) :
  n = size_wrap (base + (sizeof_root_t + owned old_root)) ->
  let created := root_create_new_root old_root n in
  let trimmed := root_trim_root (fst created) (snd created) in
  root_dtor old_root (size_sub (snd (snd trimmed)) sizeof_root_t)
  = size_wrap (base + (sizeof_root_t + owned (fst (snd trimmed)))).
Proof.
  intros Hn created trimmed.
  rewrite (acc_dtor owned Hacc).
  unfold trimmed. rewrite (acc_trim owned Hacc).
  unfold created. rewrite (acc_create owned Hacc).
  apply replacement_counter. exact Hn.
Qed.

Lemma ctor_balanced (keys : list key_t) (vals : list val_t)
      (worker_num bg_n : Z) (w : world root_t) (this : XIndex)
      (w' : world root_t) :
  XIndex_ctor ndebug keys vals worker_num bg_n w = Done this w' ->
  balanced owned 0 this w'.
Proof.
  destruct (config_positive (set_worker_n worker_num (config w))) eqn:Hcfg.
  - rewrite (XIndex_ctor_checks ndebug keys vals worker_num bg_n w Hcfg).
    open_path. unfold rcu_init.
    destruct ndebug; [|destruct (is_sorted key_less keys)]; simpl;
      try discriminate.
    all: pose proof (acc_init owned Hacc keys vals root_new
                       (size_add 0 sizeof_root_t)) as Hinit;
      destruct (root_init keys vals root_new (size_add 0 sizeof_root_t))
        as [[] [r n]]; simpl in *;
      intros H; injection H as <- <-;
      unfold balanced, live; simpl;
      rewrite Hinit, (acc_new owned Hacc);
      unfold size_add at 2; rewrite size_add_wrap; f_equal; lia.
  - unfold config_positive in Hcfg. simpl in Hcfg.
    unfold XIndex_ctor, bind, write_allocated_bytes, read_config,
      write_config, INVARIANT, raise, ret. simpl.
    repeat match goal with
           | |- context [0 <? ?x] => destruct (0 <? x); simpl in *
           end;
      discriminate.
Qed.

Lemma dtor_balanced (base : Z) (this : XIndex) :
  keeps_balance owned base this (fun this' => this')
    (XIndex_dtor ndebug this).
Proof.
  intros w this' w' Hb. unfold XIndex_dtor, balanced, live in *.
  destruct (root this) as [r|] eqn:Hroot; open_path.
  - assert (Hn : root_dtor r (size_sub (allocated_bytes w) sizeof_root_t)
                 = size_wrap (base + 0)).
    { rewrite (acc_dtor owned Hacc), Hb, !size_sub_wrap. f_equal. lia. }
    destruct ndebug; [|destruct (sizeof_root_t <? allocated_bytes w)];
      simpl; try discriminate.
    all: rewrite Hn; destruct (0 <? size_wrap (base + 0)); simpl;
      intros H; injection H as <- <-; reflexivity.
  - destruct (0 <? allocated_bytes w); simpl;
      intros H; injection H as <- <-; simpl; rewrite Hroot; exact Hb.
Qed.

Lemma force_adjustment_sync_balanced (base : Z) (this : XIndex) :
  keeps_balance owned base this (fun this' => this')
    (XIndex_force_adjustment_sync ndebug this).
Proof.
  intros w this' w' Hb. unfold XIndex_force_adjustment_sync.
  destruct (root this) as [r|] eqn:Hroot.
  - unfold bind at 1.
    destruct (call_root (root_force_adjustment_sync false) r w)
      as [[flag r1] w1| |] eqn:Hcall; try discriminate.
    pose proof (call_root_balanced _ base this r w
                  (acc_force owned Hacc false) Hroot Hb _ _ _ Hcall) as Hb1.
    destruct flag.
    + unfold balanced, live in Hb1. simpl in Hb1.
      pose proof (replacement_balanced base this r1 _ Hb1) as Hrep.
      simpl in Hrep. open_path.
      destruct (root_create_new_root r1 (allocated_bytes w1))
        as [new_root n2]. simpl in *.
      destruct (root_trim_root new_root n2) as [[] [new_root' n3]]. simpl in *.
      destruct ndebug; [|destruct (sizeof_root_t <? n3)]; simpl;
        try discriminate.
      all: intros H; injection H as <- <-; unfold balanced, live; simpl;
        exact Hrep.
    + unfold ret. intros H. injection H as <- <-. exact Hb1.
  - unfold ret. intros H. injection H as <- <-. exact Hb.
Qed.

Lemma bg_round_balanced (base : Z) (this : XIndex) (info : list bg_info_t) :
  keeps_balance owned base this fst (bg_round ndebug this info).
Proof.
  intros w out w' Hb. unfold bg_round.
  destruct (fold_left (fun acc i => acc || should_update_array i) info false).
  - destruct (root this) as [r|] eqn:Hroot; open_path; [|discriminate].
    unfold balanced, live in Hb. rewrite Hroot in Hb.
    pose proof (replacement_balanced base this r _ Hb) as Hrep.
    simpl in Hrep.
    destruct (root_create_new_root r (allocated_bytes w)) as [new_root n2].
    simpl in *.
    destruct (root_trim_root new_root n2) as [[] [new_root' n3]]. simpl in *.
    destruct ndebug; [|destruct (sizeof_root_t <? n3)]; simpl;
      try discriminate.
    all: intros H; injection H as <- <-; unfold balanced, live; simpl;
      exact Hrep.
  - open_path. intros H. injection H as <- <-. exact Hb.
Qed.

(** C8, as the code has it.  Over a Root whose methods account for
    what they allocate and release, the counter stands at a base plus
    the bytes of the live Root, and [get], [put], [remove], [scan],
    [range_scan], [force_adjustment_sync], a round of the coordinator
    and the destructor keep it there, for the same base: the Root the
    facade allocates or releases is counted with [sizeof(root_t)].  The
    constructor does not keep the base: whatever the counter held, it
    leaves it at the bytes of the new Root alone. *)
Theorem facade_keeps_counter_balanced :
  (forall keys vals worker_num bg_n w this w',
      XIndex_ctor ndebug keys vals worker_num bg_n w = Done this w' ->
      balanced owned 0 this w')
  /\ forall base this,
      (forall key val worker_id,
          keeps_balance owned base this snd
            (XIndex_get this key val worker_id))
      /\ (forall fuel key val worker_id,
             keeps_balance owned base this snd
               (XIndex_put fuel this key val worker_id))
      /\ (forall key worker_id,
             keeps_balance owned base this snd
               (XIndex_remove this key worker_id))
      /\ (forall begin n result worker_id,
             keeps_balance owned base this snd
               (XIndex_scan this begin n result worker_id))
      /\ (forall begin end_ result worker_id,
             keeps_balance owned base this snd
               (XIndex_range_scan this begin end_ result worker_id))
      /\ keeps_balance owned base this (fun this' => this')
           (XIndex_force_adjustment_sync ndebug this)
      /\ (forall info,
             keeps_balance owned base this fst (bg_round ndebug this info))
      /\ keeps_balance owned base this (fun this' => this')
           (XIndex_dtor ndebug this).
Proof.
  split.
  - apply ctor_balanced.
  - intros base this.
    split; [intros; apply get_balanced|].
    split; [intros; apply put_balanced|].
    split; [intros; apply remove_balanced|].
    split; [intros; apply scan_balanced|].
    split; [intros; apply range_scan_balanced|].
    split; [apply force_adjustment_sync_balanced|].
    split; [intros; apply bg_round_balanced|].
    apply dtor_balanced.
Qed.

End FacadeAccounting.

(** * The scenario and the examples, on the Root after the spec *)

Section OnSpecRoot.

Import Examples.

(** The Root after the spec accounts for what it owns. *)
Lemma spec_root_accounts (group_cap : nat) :
  root_accounts (R := SpecRoot.spec_root group_cap) SpecRoot.owned.
Proof.
  constructor; try reflexivity.
  all: unfold consistent; intros; cbn [root_init root_get root_put root_remove
         root_scan root_range_scan root_force_adjustment_sync root_trim_root
         SpecRoot.spec_root];
    unfold SpecRoot.init, SpecRoot.get, SpecRoot.put, SpecRoot.remove,
      SpecRoot.scan, SpecRoot.range_scan, SpecRoot.force_adjustment_sync,
      SpecRoot.trim_root, SpecRoot.accounted;
    repeat match goal with
           | |- context [let '(_, _) := ?x in _] => destruct x
           end;
    reflexivity.
Qed.

(** C1.  The concrete scenario, on the Root after the spec, whatever the
    cap on the size of a Group, with or without [NDEBUG], and with any
    positive number of turns allowed to the loop of [put]: [get(5)]
    gives (true, 50), [get(4)] after [put(4,40)] gives (true, 40),
    [get(3)] after [remove(3)] gives false (and leaves the caller's
    value, 0), and [range_scan(3,8)] gives the three pairs (4,40),
    (5,50), (7,70) in this order. *)
Theorem scenario_answers (group_cap : nat) (ndebug : bool) (fuel : nat) :
  returned (scenario group_cap ndebug (S fuel) boot)
  = Some ((true, 50), (true, 40), (false, 0),
          (3, [(4, 40); (5, 50); (7, 70)])).
Proof.
  destruct group_cap as [|[|[|[|[|n]]]]]; destruct ndebug;
    vm_compute; reflexivity.
Qed.

(** *** Where the claims fail as stated *)

(** C3 as stated fails: on the marked index, where one worker has raised
    its flag, the round passes two fences and two barriers, and
    [force_adjustment_sync] on the crowded index, which finds the same
    Group to split, passes none. *)
Lemma sync_takes_no_fence_or_barrier :
  map kind_of
      (steps_since crowded_world
         (XIndex_force_adjustment_sync false crowded_index crowded_world))
  = [create_new_root_step; store_root_step; trim_root_step; delete_root_step]
  /\ map kind_of
        (steps_since marked_world
           (bg_round false marked_index one_worker_flagged marked_world))
     = [create_new_root_step; store_root_step; memory_fence_step;
        rcu_barrier_step; trim_root_step; delete_root_step;
        memory_fence_step; rcu_barrier_step]
  /\ steps_since crowded_world
        (XIndex_force_adjustment_sync false crowded_index crowded_world)
     <> steps_since marked_world
          (bg_round false marked_index one_worker_flagged marked_world).
Proof.
  split; [vm_compute; reflexivity|].
  split; [vm_compute; reflexivity|].
  intros H. apply (f_equal (@List.length _)) in H.
  vm_compute in H. discriminate.
Qed.






(** C8 as stated fails: the constructor resets the counter.  Started
    with 100 bytes on the counter, it leaves 208, the bytes of the new
    Root, and not 308. *)
Lemma ctor_discards_counter :
  exists (this : XIndex (R := SpecRoot.spec_root 5)) w',
    XIndex_ctor false [1; 3; 5; 7; 9] [10; 30; 50; 70; 90] 1 0
                (mkWorld 100 default_config [] [])
    = Done this w'
    /\ live (R := SpecRoot.spec_root 5) SpecRoot.owned this = 208
    /\ allocated_bytes w' = 208
    /\ ~ balanced (R := SpecRoot.spec_root 5) SpecRoot.owned 100 this w'.
Proof.
  eexists. eexists. split; [reflexivity|].
  split; [vm_compute; reflexivity|]. split; [reflexivity|].
  unfold balanced. vm_compute. discriminate.
Qed.

(** C10 as stated fails: the index of the scenario is destroyed with
    the assertion holding (the counter is at 208, above the 64 bytes of
    the Root object), the destructor of the Root releases the 144 bytes
    the Root owns, and the destructor of the index ends with the counter
    at zero and without the diagnostic. *)
Lemma dtor_silent_when_root_releases_all :
  exists (this : XIndex (R := SpecRoot.spec_root 5)) w w',
    XIndex_ctor false [1; 3; 5; 7; 9] [10; 30; 50; 70; 90] 1 0 boot
    = Done this w
    /\ sizeof_root_t (Root := SpecRoot.spec_root 5) < allocated_bytes w < 2 ^ 64
    /\ XIndex_dtor false this w = Done (set_root None this) w'
    /\ allocated_bytes w' = 0
    /\ map kind_of (steps_since w (XIndex_dtor false this w))
       = [delete_root_step].
Proof.
  eexists. eexists. eexists. split; [reflexivity|].
  split; [vm_compute; split; reflexivity|].
  split; [reflexivity|].
  split; vm_compute; reflexivity.
Qed.

(** *** The properties at concrete states *)

(** A round on the marked index, with the flag of its one worker raised. *)
Lemma bg_round_order_witness :
  existsb should_update_array one_worker_flagged = true
  /\ map kind_of
        (steps_since marked_world
           (bg_round false marked_index one_worker_flagged marked_world))
     = [create_new_root_step; store_root_step; memory_fence_step;
        rcu_barrier_step; trim_root_step; delete_root_step;
        memory_fence_step; rcu_barrier_step].
Proof.
  split; [reflexivity|].
  destruct (bg_round_order false marked_index one_worker_flagged marked_world)
    as [_ [H _]].
  destruct (H (fst (snd marked)) eq_refl eq_refl) as [_ Hsteps].
  - intros _. vm_compute. reflexivity.
  - refine (eq_trans (f_equal (map kind_of) Hsteps) _). reflexivity.
Defined.

(** The synchronous path on the crowded index against the round on the
    marked index. *)
Lemma sync_is_round_witness :
  root crowded_index <> None
  /\ existsb should_update_array one_worker_flagged = fst marked
  /\ returned (XIndex_force_adjustment_sync false crowded_index crowded_world)
     = option_map fst
         (returned (bg_round false marked_index one_worker_flagged
                             marked_world)).
Proof.
  split; [discriminate|]. split; [reflexivity|].
  destruct (sync_is_round_without_fence_and_barrier
              false crowded_index _ one_worker_flagged crowded_world
              eq_refl eq_refl) as [H _].
  exact H.
Defined.

(** [put(4, 40)] by worker 0 on the index of the scenario. *)
Lemma put_never_returns_retry_witness :
  exists (this' : XIndex (R := SpecRoot.spec_root 5)) w',
    XIndex_put 1 shared_index 4 40 0 shared_world = Done (true, this') w'
    /\ exists res w1,
        rcu_progress (R := SpecRoot.spec_root 5) 0 shared_world = Done tt w1
        /\ put_loop 1 shared_index 4 40 0 w1 = Done (res, this') w'
        /\ res <> retry
        /\ true = result_eqb res ok.
Proof.
  eexists. eexists. split; [reflexivity|].
  eapply put_never_returns_retry. reflexivity.
Defined.


(** Construction for zero workers. *)
Lemma XIndex_ctor_refuses_invalid_config_witness :
  config_positive (set_worker_n 0 default_config) = false
  /\ exists cond,
      XIndex_ctor (R := SpecRoot.spec_root 5) false
                  [1; 3; 5; 7; 9] [10; 30; 50; 70; 90] 0 0 boot
      = Fault (invariant_failed cond)
              (mkWorld 0 (set_worker_n 0 default_config) [] []).
Proof.
  split; [reflexivity|].
  apply (XIndex_ctor_refuses_invalid_config
           (R := SpecRoot.spec_root 5) false
           [1; 3; 5; 7; 9] [10; 30; 50; 70; 90] 0 0 boot).
  reflexivity.
Defined.


(** The Root after the spec meets the accounting contract, and the index
    of the scenario is balanced over base 0 once constructed. *)
Lemma facade_keeps_counter_balanced_witness :
  root_accounts (R := SpecRoot.spec_root 5) SpecRoot.owned
  /\ balanced (R := SpecRoot.spec_root 5) SpecRoot.owned 0
       shared_index shared_world.
Proof.
  split; [apply spec_root_accounts|].
  destruct (facade_keeps_counter_balanced
              (R := SpecRoot.spec_root 5) false SpecRoot.owned
              (spec_root_accounts 5)) as [Hctor _].
  eapply (Hctor [1; 3; 5; 7; 9] [10; 30; 50; 70; 90] 2 0 boot).
  reflexivity.
Defined.

(** An index whose Root pointer is null. *)
Lemma force_adjustment_sync_without_root_witness :
  XIndex_force_adjustment_sync
    false (mkXIndex (R := SpecRoot.spec_root 5) None 0 false) busy_world
  = Done (mkXIndex (R := SpecRoot.spec_root 5) None 0 false) busy_world.
Proof.
  exact (force_adjustment_sync_without_root
           (R := SpecRoot.spec_root 5) false
           (mkXIndex (R := SpecRoot.spec_root 5) None 0 false) busy_world
           eq_refl).
Defined.

(** The index of the scenario at its destruction: the counter is at
    208, above the 64 bytes of the Root object. *)
Lemma dtor_counter_after_decrement_witness :
  root shared_index <> None
  /\ 0 <= allocated_bytes shared_world < 2 ^ 64
  /\ sizeof_root_t (Root := SpecRoot.spec_root 5) < allocated_bytes shared_world
  /\ 0 < allocated_bytes shared_world
         - sizeof_root_t (Root := SpecRoot.spec_root 5).
Proof.
  split; [discriminate|].
  split; [vm_compute; split; [discriminate | reflexivity]|].
  split; [reflexivity|].
  destruct (dtor_counter_after_decrement
              false shared_index _ shared_world eq_refl) as [H _].
  - vm_compute. split; [discriminate | reflexivity].
  - reflexivity.
  - exact H.
Defined.

End OnSpecRoot.

(** * Further behaviour of the facade *)

Section FurtherNotions.

Context {key_t val_t : Type} {R : Root key_t val_t}.

(** An index that operations of [n] workers can be run on: the Root
    pointer is not null and there is one epoch counter per worker. *)
Definition usable (n : Z) (this : XIndex) (w : world root_t) : Prop :=
  root this <> None /\ Z.of_nat (List.length (rcu_status w)) = n.

(** The line on [std::cerr] at the end of the destructor, for a counter
    that stands at [n]. *)
Definition leak_report (n : Z) : list (event root_t) :=
  if 0 <? n then [ev_cerr_leaking n] else [].

End FurtherNotions.

Section FurtherProperties.

Context {key_t val_t : Type} {R : Root key_t val_t}.
Variable ndebug : bool.

Local Open Scope xi_scope.

(** X1.  On a configuration whose tunables are positive and with sorted
    keys (or with [NDEBUG]), the constructor returns.  The index has a
    Root, the fresh Root after [init]; [config.worker_n] is the number
    of workers asked for and each of them has an epoch counter at zero,
    so that the index is usable by [worker_num] workers; the counter is
    what [init] leaves of [sizeof(root_t)]; no step is taken and no
    background thread is started. *)
Theorem XIndex_ctor_returns
        (keys : list key_t) (vals : list val_t) (worker_num bg_n : Z)
        (w : world root_t) :
  config_positive (set_worker_n worker_num (config w)) = true ->
  ndebug || is_sorted key_less keys = true ->
  let made := root_init keys vals root_new sizeof_root_t in
  let this := {| root := Some (fst (snd made)); bg_num := bg_n;
                 bg_running := false |} in
  let w' := mkWorld (snd (snd made)) (set_worker_n worker_num (config w))
                    (repeat 0 (Z.to_nat worker_num)) (trace w) in
  XIndex_ctor ndebug keys vals worker_num bg_n w = Done this w'
  /\ usable worker_num this w'.
Proof.
  intros Hcfg Hsorted made this w'. split.
  - rewrite (XIndex_ctor_checks ndebug keys vals worker_num bg_n w Hcfg).
    open_path. unfold rcu_init. simpl.
    assert (Hsize : size_add 0 sizeof_root_t = sizeof_root_t).
    { unfold size_add. apply size_wrap_small.
      pose proof sizeof_root_t_range. lia. }
    subst this w' made.
    destruct ndebug; simpl in *;
      [|rewrite Hsorted]; simpl; rewrite Hsize;
      destruct (root_init keys vals root_new sizeof_root_t) as [[] [r n]];
      reflexivity.
  - split; [discriminate|]. simpl. rewrite repeat_length.
    unfold config_positive in Hcfg. simpl in Hcfg.
    apply andb_prop in Hcfg. destruct Hcfg as [_ Hn].
    apply Z.ltb_lt in Hn. lia.
Qed.

(** X2.  Keys that are not sorted stop the constructor of a build with
    assertions, after the checks of the configuration and before the
    epoch counters and the Root are made; a build with [NDEBUG] takes
    them and returns an index. *)
Theorem XIndex_ctor_unsorted_keys
        (keys : list key_t) (vals : list val_t) (worker_num bg_n : Z)
        (w : world root_t) :
  config_positive (set_worker_n worker_num (config w)) = true ->
  is_sorted key_less keys = false ->
  (ndebug = false ->
   XIndex_ctor ndebug keys vals worker_num bg_n w
   = Fault (assert_failed "std::is_sorted(keys.begin(), keys.end())")
           (set_config (set_worker_n worker_num (config w))
                       (set_allocated_bytes 0 w)))
  /\ (ndebug = true ->
      exists this w',
        XIndex_ctor ndebug keys vals worker_num bg_n w = Done this w'
        /\ root this <> None).
Proof.
  intros Hcfg Hsorted. split; intros Hbuild.
  - rewrite (XIndex_ctor_checks ndebug keys vals worker_num bg_n w Hcfg).
    open_path. rewrite Hbuild, Hsorted. reflexivity.
  - rewrite (XIndex_ctor_checks ndebug keys vals worker_num bg_n w Hcfg).
    open_path. unfold rcu_init. rewrite Hbuild. simpl.
    destruct (root_init keys vals root_new (size_add 0 sizeof_root_t))
      as [[] [r n]].
    eexists. eexists. split; [reflexivity | discriminate].
Qed.

(** *** The destructor at and below its assertion *)

Lemma size_sub_below (n size : Z) :
  0 <= n <= size -> size < 2 ^ 64 ->
  size_sub n size = if n =? size then 0 else n + 2 ^ 64 - size.
Proof.
  intros Hn Hsize. unfold size_sub, size_wrap.
  assert (Hpos : 0 < 2 ^ 64) by reflexivity.
  destruct (n =? size) eqn:Heq.
  - apply Z.eqb_eq in Heq. subst. now rewrite Z.sub_diag.
  - apply Z.eqb_neq in Heq.
    rewrite <- (Z_mod_plus_full (n - size) 1 (2 ^ 64)).
    replace (n - size + 1 * 2 ^ 64) with (n + 2 ^ 64 - size) by lia.
    apply Z.mod_small. lia.
Qed.

(** X7.  The destructor with a Root and a counter that is not above
    [sizeof(root_t)], equal to it included.  A build with assertions
    stops at the assertion: nothing is released and the counter is as
    it was.  A build with [NDEBUG] goes on: an equal counter becomes
    zero, a smaller one wraps around to [counter + 2^64 -
    sizeof(root_t)]; the Root is released, and the diagnostic reports
    what the destructor of the Root leaves of that value. *)
Theorem XIndex_dtor_below_assertion
        (this : XIndex) (r : root_t) (w : world root_t) :
  root this = Some r ->
  0 <= allocated_bytes w <= sizeof_root_t ->
  (ndebug = false ->
   XIndex_dtor ndebug this w
   = Fault (assert_failed "_::allocated_bytes > bytes_to_delete") w)
  /\ (ndebug = true ->
      let n1 := if allocated_bytes w =? sizeof_root_t then 0
                else allocated_bytes w + 2 ^ 64 - sizeof_root_t in
      let n2 := root_dtor r n1 in
      XIndex_dtor ndebug this w
      = Done (set_root None this)
             (mkWorld n2 (config w) (rcu_status w)
                      (trace w ++ ev_delete_root r :: leak_report n2))).
Proof.
  intros Hroot Hn.
  pose proof sizeof_root_t_range as Hsize.
  split; intros Hbuild.
  - unfold XIndex_dtor. rewrite Hroot, Hbuild. open_path.
    assert (Hlt : (sizeof_root_t <? allocated_bytes w) = false)
      by (apply Z.ltb_ge; lia).
    rewrite Hlt. simpl. destruct w; reflexivity.
  - intros n1 n2. unfold XIndex_dtor. rewrite Hroot, Hbuild. open_path.
    rewrite (size_sub_below _ _ Hn) by lia. fold n1. fold n2.
    unfold leak_report. destruct (0 <? n2); simpl;
      rewrite <- ?app_assoc; reflexivity.
Qed.

(** The destructor of an index whose Root pointer is null releases
    nothing. *)
Lemma XIndex_dtor_null (this : XIndex) (w : world root_t) :
  root this = None ->
  XIndex_dtor ndebug this w
  = Done this (mkWorld (allocated_bytes w) (config w) (rcu_status w)
                       (trace w ++ leak_report (allocated_bytes w))).
Proof.
  intros Hroot. unfold XIndex_dtor. rewrite Hroot. open_path.
  unfold leak_report. destruct (0 <? allocated_bytes w); simpl.
  - reflexivity.
  - rewrite app_nil_r. destruct w; reflexivity.
Qed.

(** What the destructor leaves when it returns. *)
Lemma XIndex_dtor_done (this this' : XIndex) (w w' : world root_t) :
  XIndex_dtor ndebug this w = Done this' w' ->
  root this' = None
  /\ trace w'
     = trace w
       ++ match root this with Some r => [ev_delete_root r] | None => [] end
       ++ leak_report (allocated_bytes w').
Proof.
  destruct (root this) as [r|] eqn:Hroot.
  - unfold XIndex_dtor. rewrite Hroot. open_path. unfold leak_report.
    destruct ndebug; [|destruct (sizeof_root_t <? allocated_bytes w)];
      simpl; try discriminate.
    all: match goal with
         | |- context [0 <? ?n] => destruct (0 <? n) eqn:Hn
         end; simpl;
      intros H; injection H as <- <-; simpl; rewrite ?Hn;
      (split; [reflexivity | rewrite <- ?app_assoc; reflexivity]).
  - rewrite (XIndex_dtor_null this w Hroot).
    intros H. injection H as <- <-. simpl. rewrite Hroot.
    split; reflexivity.
Qed.

(** X8.  The destructor clears the Root pointer, so that running it
    again releases nothing: the second run leaves the index and the
    counter as they are and at most repeats the diagnostic. *)
Theorem XIndex_dtor_releases_once
        (this this' : XIndex) (w w' : world root_t) :
  XIndex_dtor ndebug this w = Done this' w' ->
  root this' = None
  /\ XIndex_dtor ndebug this' w'
     = Done this' (mkWorld (allocated_bytes w') (config w') (rcu_status w')
                           (trace w' ++ leak_report (allocated_bytes w'))).
Proof.
  intros Hrun. destruct (XIndex_dtor_done _ _ _ _ Hrun) as [Hnull _].
  split; [exact Hnull | now apply XIndex_dtor_null].
Qed.

(** *** A round in which nothing is to be done, and the round after one *)

Lemma bg_round_without_flag (this : XIndex) (info : list bg_info_t)
      (w : world root_t) :
  existsb should_update_array info = false ->
  bg_round ndebug this info w
  = Done (this, map clear_round info)
         (mkWorld (allocated_bytes w) (config w) (rcu_status w)
                  (trace w ++ [ev_memory_fence; ev_rcu_barrier])).
Proof.
  intros Hflag. unfold bg_round. rewrite flag_of_round, Hflag. open_path.
  rewrite <- app_assoc. reflexivity.
Qed.

Lemma cleared_flags (info : list bg_info_t) :
  existsb should_update_array (map clear_round info) = false
  /\ existsb finished (map clear_round info) = false.
Proof. induction info as [|i info [IH1 IH2]]; simpl; auto. Qed.

Lemma clear_round_again (info : list bg_info_t) :
  map clear_round (map clear_round info) = map clear_round info.
Proof.
  rewrite map_map. apply map_ext. intros i. reflexivity.
Qed.

(** X10.  A round that returns has lowered the flags [finished] and
    [should_update_array] of every worker and left the share of each
    worker ([bg_i], [bg_n]) as it was.  A request to replace the Root is
    therefore served once: the next round on the same vector replaces
    nothing and only passes the closing fence and barrier. *)
Theorem bg_round_consumes_flags
        (this this' : XIndex) (info info' : list bg_info_t)
        (w w' : world root_t) :
  bg_round ndebug this info w = Done (this', info') w' ->
  existsb should_update_array info' = false
  /\ existsb finished info' = false
  /\ map bg_i info' = map bg_i info
  /\ map bg_n info' = map bg_n info
  /\ bg_round ndebug this' info' w'
     = Done (this', info')
            (mkWorld (allocated_bytes w') (config w') (rcu_status w')
                     (trace w' ++ [ev_memory_fence; ev_rcu_barrier])).
Proof.
  intros Hrun.
  assert (Hinfo : info' = map clear_round info).
  { revert Hrun. unfold bg_round.
    destruct (fold_left (fun acc i => acc || should_update_array i) info false).
    - destruct (root this) as [r|]; open_path; [|discriminate].
      destruct (root_create_new_root r (allocated_bytes w))
        as [new_root n2]. simpl.
      destruct (root_trim_root new_root n2) as [[] [new_root' n3]]. simpl.
      destruct ndebug; [|destruct (sizeof_root_t <? n3)]; simpl;
        try discriminate; intros H; now injection H as _ <- _.
    - open_path. intros H. now injection H as _ <- _. }
  subst info'. destruct (cleared_flags info) as [Hflag Hfin].
  split; [exact Hflag|]. split; [exact Hfin|].
  split; [rewrite map_map; reflexivity|].
  split; [rewrite map_map; reflexivity|].
  rewrite (bg_round_without_flag _ _ _ Hflag), clear_round_again.
  reflexivity.
Qed.

(** The constructor returns an index with a Root. *)
Lemma XIndex_ctor_done_root
      (keys : list key_t) (vals : list val_t) (worker_num bg_n : Z)
      (w w' : world root_t) (this : XIndex) :
  XIndex_ctor ndebug keys vals worker_num bg_n w = Done this w' ->
  exists r, root this = Some r.
Proof.
  destruct (config_positive (set_worker_n worker_num (config w))) eqn:Hcfg.
  - rewrite (XIndex_ctor_checks ndebug keys vals worker_num bg_n w Hcfg).
    open_path. unfold rcu_init.
    destruct ndebug; [|destruct (is_sorted key_less keys)]; simpl;
      try discriminate;
      destruct (root_init keys vals root_new (size_add 0 sizeof_root_t))
        as [[] [r n]]; simpl;
      intros H; injection H as <- _; eexists; reflexivity.
  - unfold config_positive in Hcfg. simpl in Hcfg.
    unfold XIndex_ctor, bind, write_allocated_bytes, read_config,
      write_config, INVARIANT, raise, ret. simpl.
    repeat match goal with
           | |- context [0 <? ?x] => destruct (0 <? x); simpl in *
           end;
      discriminate.
Qed.

(** *** The synchronous adjustment, case by case *)

(** X11.  [force_adjustment_sync] on an index with a Root.  When the
    evaluation of the Groups raises no flag, the Root stays in place, as
    the evaluation left it, and no step is taken.  When it raises the
    flag and the counter passes the assertion, the old Root is replaced
    and released exactly once, after the new Root has been stored and
    trimmed.  When it raises the flag and the assertion fails, the call
    stops after the new Root has been stored and trimmed and before the
    old Root is released. *)
Theorem force_adjustment_sync_cases
        (this : XIndex) (r : root_t) (w : world root_t) :
  root this = Some r ->
  let evaluated := root_force_adjustment_sync false r (allocated_bytes w) in
  let r1 := fst (snd evaluated) in
  let created := root_create_new_root r1 (snd (snd evaluated)) in
  let new_root := fst created in
  let trimmed := root_trim_root new_root (snd created) in
  let new_root' := fst (snd trimmed) in
  let n3 := snd (snd trimmed) in
  (fst evaluated = false ->
   XIndex_force_adjustment_sync ndebug this w
   = Done (set_root (Some r1) this)
          (set_allocated_bytes (snd (snd evaluated)) w))
  /\ (fst evaluated = true ->
      (ndebug = false -> sizeof_root_t < n3) ->
      XIndex_force_adjustment_sync ndebug this w
      = Done (set_root (Some new_root') this)
             (mkWorld (root_dtor r1 (size_sub n3 sizeof_root_t))
                      (config w) (rcu_status w)
                      (trace w ++ [ev_create_new_root r1;
                                   ev_store_root new_root;
                                   ev_trim_root new_root;
                                   ev_delete_root r1])))
  /\ (fst evaluated = true ->
      ndebug = false ->
      n3 <= sizeof_root_t ->
      XIndex_force_adjustment_sync ndebug this w
      = Fault (assert_failed "_::allocated_bytes > bytes_to_delete")
              (mkWorld n3 (config w) (rcu_status w)
                       (trace w ++ [ev_create_new_root r1;
                                    ev_store_root new_root;
                                    ev_trim_root new_root]))).
Proof.
  intros Hroot evaluated r1 created new_root trimmed new_root' n3.
  subst n3 new_root' trimmed new_root created r1 evaluated.
  unfold XIndex_force_adjustment_sync. rewrite Hroot. open_path.
  destruct (root_force_adjustment_sync false r (allocated_bytes w))
    as [flag [r1 n1]]. simpl.
  split; [|split].
  - intros ->. reflexivity.
  - intros ->. simpl.
    destruct (root_create_new_root r1 n1) as [new_root n2]. simpl.
    destruct (root_trim_root new_root n2) as [[] [new_root' n3]]. simpl.
    intros Hassert. destruct ndebug; simpl.
    + rewrite <- ?app_assoc. reflexivity.
    + specialize (Hassert eq_refl). apply Z.ltb_lt in Hassert.
      rewrite Hassert. simpl. rewrite <- ?app_assoc. reflexivity.
  - intros -> ->. simpl.
    destruct (root_create_new_root r1 n1) as [new_root n2]. simpl.
    destruct (root_trim_root new_root n2) as [[] [new_root' n3]]. simpl.
    intros Hle.
    assert (Hlt : (sizeof_root_t <? n3) = false) by (apply Z.ltb_ge; lia).
    rewrite Hlt. simpl. rewrite <- ?app_assoc. reflexivity.
Qed.

End FurtherProperties.

(** *** What the destructor reports *)

Section FurtherAccounting.

Context {key_t val_t : Type} {R : Root key_t val_t}.
Variable ndebug : bool.
Variable owned : root_t -> Z.
Hypothesis Hacc : root_accounts owned.

(** X12.  Over a Root that accounts for what it allocates and releases,
    and from a counter that stands at a base plus the bytes of the live
    Root, the destructor, when it returns, leaves the counter at the
    base (modulo 2^64) and reports exactly that: the diagnostic is
    written when the base is not zero and names the base, and it is not
    written when the base is zero. *)
Theorem dtor_reports_unowned_bytes
        (base : Z) (this this' : XIndex) (w w' : world root_t) :
  balanced owned base this w ->
  XIndex_dtor ndebug this w = Done this' w' ->
  allocated_bytes w' = size_wrap base
  /\ steps_since w (XIndex_dtor ndebug this w)
     = match root this with Some r => [ev_delete_root r] | None => [] end
       ++ leak_report (size_wrap base).
Proof.
  intros Hb Hrun.
  pose proof (dtor_balanced ndebug owned Hacc base this w this' w' Hb Hrun)
    as Hb'.
  destruct (XIndex_dtor_done ndebug _ _ _ _ Hrun) as [Hnull Htrace].
  unfold balanced, live in Hb'. rewrite Hnull, Z.add_0_r in Hb'.
  split; [exact Hb'|].
  apply steps_since_app. rewrite Hrun. simpl. now rewrite Htrace, Hb'.
Qed.

(** X13.  Construction followed by destruction, over a Root that
    accounts for what it allocates and releases: whatever the counter
    held before the constructor, the destructor, when it returns, leaves
    it at zero, releases the Root of the index and writes no
    diagnostic. *)
Theorem construct_then_destroy
        (keys : list key_t) (vals : list val_t) (worker_num bg_n : Z)
        (w w1 w2 : world root_t) (this this' : XIndex) :
  XIndex_ctor ndebug keys vals worker_num bg_n w = Done this w1 ->
  XIndex_dtor ndebug this w1 = Done this' w2 ->
  allocated_bytes w2 = 0
  /\ root this' = None
  /\ exists r,
      root this = Some r
      /\ steps_since w1 (XIndex_dtor ndebug this w1) = [ev_delete_root r].
Proof.
  intros Hctor Hdtor.
  pose proof (ctor_balanced ndebug owned Hacc _ _ _ _ _ _ _ Hctor) as Hb.
  pose proof (dtor_balanced ndebug owned Hacc 0 this w1 this' w2 Hb Hdtor)
    as Hb'.
  destruct (XIndex_dtor_done ndebug _ _ _ _ Hdtor) as [Hnull Htrace].
  unfold balanced, live in Hb'. rewrite Hnull in Hb'. simpl in Hb'.
  change (size_wrap 0) with 0 in Hb'.
  split; [exact Hb'|]. split; [exact Hnull|].
  pose proof (XIndex_ctor_done_root ndebug _ _ _ _ _ _ _ Hctor) as Hroot.
  destruct Hroot as [r Hroot]. exists r. split; [exact Hroot|].
  apply steps_since_app. rewrite Hdtor. simpl.
  rewrite Htrace, Hroot, Hb'. reflexivity.
Qed.

End FurtherAccounting.

(** *** The byte-size report *)

Lemma size_add_assoc (a b c : Z) :
  size_add (size_add a b) c = size_add a (size_add b c).
Proof.
  unfold size_add, size_wrap.
  rewrite Zplus_mod_idemp_l, Zplus_mod_idemp_r. f_equal. lia.
Qed.

Lemma size_add_comm (a b : Z) : size_add a b = size_add b a.
Proof. unfold size_add. f_equal. lia. Qed.

(** X14.  Sizes accumulated with [operator+=] do not depend on the order
    or the grouping in which they are added, also when a 64-bit sum
    wraps around; and the two fields never influence each other. *)
Theorem ByteSize_add_assign_order (a b c : ByteSize) :
  ByteSize_add_assign a b = ByteSize_add_assign b a
  /\ ByteSize_add_assign (ByteSize_add_assign a b) c
     = ByteSize_add_assign a (ByteSize_add_assign b c)
  /\ allocated (ByteSize_add_assign a b)
     = size_add (allocated a) (allocated b)
  /\ used (ByteSize_add_assign a b) = size_add (used a) (used b).
Proof.
  unfold ByteSize_add_assign. simpl. repeat split.
  - f_equal; apply size_add_comm.
  - f_equal; apply size_add_assoc.
Qed.

(** A pair of sizes as [size_t] holds them, with no more bytes in use
    than allocated. *)
Definition well_formed (b : ByteSize) : Prop :=
  0 <= used b <= allocated b /\ allocated b < 2 ^ 64.

(** X15.  As long as the allocated bytes do not overflow 64 bits,
    [operator+=] adds exactly, field by field, and the sum of two pairs
    with no more bytes in use than allocated is again such a pair. *)
Theorem ByteSize_add_assign_exact (a b : ByteSize) :
  well_formed a ->
  well_formed b ->
  allocated a + allocated b < 2 ^ 64 ->
  ByteSize_add_assign a b
  = {| allocated := allocated a + allocated b; used := used a + used b |}
  /\ well_formed (ByteSize_add_assign a b).
Proof.
  intros [Ha Ha'] [Hb Hb'] Hsum.
  assert (Heq : ByteSize_add_assign a b
                = {| allocated := allocated a + allocated b;
                     used := used a + used b |}).
  { unfold ByteSize_add_assign, size_add.
    rewrite !size_wrap_small by lia. reflexivity. }
  split; [exact Heq|]. rewrite Heq. unfold well_formed. simpl. lia.
Qed.

Section ByteSizeReport.

Context {key_t val_t : Type} {R : Root key_t val_t}.

(** X16.  [byte_size] counts the index object itself as both allocated
    and in use.  Without a Root the report is that alone.  With a Root
    whose report is well formed, and as long as the total does not
    overflow 64 bits, the report is the Root's with the size of the
    index object added to both fields: it is well formed again, and the
    bytes allocated but not in use are those of the Root. *)
Theorem XIndex_byte_size_adds_own_size (size : Z) (this : XIndex) :
  0 <= size < 2 ^ 64 ->
  (root this = None ->
   XIndex_byte_size size this = {| allocated := size; used := size |})
  /\ (forall r,
         root this = Some r ->
         well_formed (root_byte_size r) ->
         size + allocated (root_byte_size r) < 2 ^ 64 ->
         XIndex_byte_size size this
         = {| allocated := size + allocated (root_byte_size r);
              used := size + used (root_byte_size r) |}
         /\ well_formed (XIndex_byte_size size this)
         /\ allocated (XIndex_byte_size size this)
            - used (XIndex_byte_size size this)
            = allocated (root_byte_size r) - used (root_byte_size r)).
Proof.
  intros Hsize. unfold XIndex_byte_size. split.
  - intros ->. now rewrite size_wrap_small.
  - intros r -> [Hr Hr'] Hsum.
    assert (Heq : ByteSize_add_assign
                    {| allocated := size_wrap size; used := size_wrap size |}
                    (root_byte_size r)
                  = {| allocated := size + allocated (root_byte_size r);
                       used := size + used (root_byte_size r) |}).
    { rewrite size_wrap_small by exact Hsize.
      unfold ByteSize_add_assign, size_add. simpl.
      rewrite !size_wrap_small by lia. reflexivity. }
    rewrite Heq. unfold well_formed. simpl. repeat split; lia.
Qed.

End ByteSizeReport.

(** *** The further properties at concrete states *)

Module MoreExamples.

Import Examples.

(** The round of the coordinator on the marked index, evaluated. *)
Definition round_outcome
  : outcome (world SpecRoot.node)
            (XIndex (R := SpecRoot.spec_root 2) * list bg_info_t) :=
  Eval vm_compute in
    bg_round false marked_index one_worker_flagged marked_world.

Definition rebuilt_index : XIndex (R := SpecRoot.spec_root 2) :=
  match round_outcome with
  | Done (idx, _) _ => idx
  | _ => mkXIndex (R := SpecRoot.spec_root 2) None 0 false
  end.

Definition rebuilt_info : list bg_info_t :=
  match round_outcome with
  | Done (_, info) _ => info
  | _ => []
  end.

Definition rebuilt_world : world SpecRoot.node := final_world round_outcome.

End MoreExamples.

Section FurtherOnSpecRoot.

Import Examples.
Import MoreExamples.

(** The index of the scenario, built for two workers. *)
Lemma XIndex_ctor_returns_witness :
  config_positive (set_worker_n 2 default_config) = true
  /\ is_sorted Z.ltb [1; 3; 5; 7; 9] = true
  /\ XIndex_ctor (R := SpecRoot.spec_root 5) false
                 [1; 3; 5; 7; 9] [10; 30; 50; 70; 90] 2 0 boot
     = Done shared_index shared_world
  /\ usable (R := SpecRoot.spec_root 5) 2 shared_index shared_world.
Proof.
  split; [reflexivity|]. split; [reflexivity|].
  exact (XIndex_ctor_returns
           (R := SpecRoot.spec_root 5) false
           [1; 3; 5; 7; 9] [10; 30; 50; 70; 90] 2 0 boot eq_refl eq_refl).
Defined.

(** Keys out of order, with and without assertions. *)
Lemma XIndex_ctor_unsorted_keys_witness :
  is_sorted Z.ltb [3; 1] = false
  /\ XIndex_ctor (R := SpecRoot.spec_root 5) false [3; 1] [30; 10] 1 0 boot
     = Fault (assert_failed "std::is_sorted(keys.begin(), keys.end())")
             (mkWorld 0 (set_worker_n 1 default_config) [] []).
Proof.
  split; [reflexivity|].
  exact (proj1 (XIndex_ctor_unsorted_keys
                  (R := SpecRoot.spec_root 5) false
                  [3; 1] [30; 10] 1 0 boot eq_refl eq_refl) eq_refl).
Defined.

(** The index of the scenario with the counter at the 64 bytes of the Root
    object alone. *)
Lemma XIndex_dtor_below_assertion_witness :
  root shared_index <> None
  /\ XIndex_dtor false shared_index
                 (mkWorld 64 (config shared_world) [0; 0] [])
     = Fault (assert_failed "_::allocated_bytes > bytes_to_delete")
             (mkWorld 64 (config shared_world) [0; 0] []).
Proof.
  split; [discriminate|].
  refine (proj1 (XIndex_dtor_below_assertion
                   (R := SpecRoot.spec_root 5) false shared_index _
                   (mkWorld 64 (config shared_world) [0; 0] [])
                   eq_refl _) eq_refl).
  simpl. unfold SpecRoot.sizeof_root. lia.
Defined.

(** The index of the scenario destroyed twice. *)
Lemma XIndex_dtor_releases_once_witness :
  exists (this' : XIndex (R := SpecRoot.spec_root 5)) w',
    XIndex_dtor false shared_index shared_world = Done this' w'
    /\ root this' = None
    /\ map kind_of (steps_since w' (XIndex_dtor false this' w')) = [].
Proof.
  eexists. eexists. split; [reflexivity|].
  destruct (XIndex_dtor_releases_once
              (R := SpecRoot.spec_root 5) false shared_index _ shared_world _
              eq_refl) as [Hnull Hagain].
  split; [exact Hnull|].
  refine (eq_trans (f_equal (fun o => map kind_of (steps_since _ o)) Hagain) _).
  reflexivity.
Defined.

(** The round on the marked index, whose worker has raised its flag. *)
Lemma bg_round_consumes_flags_witness :
  bg_round false marked_index one_worker_flagged marked_world
  = Done (rebuilt_index, rebuilt_info) rebuilt_world
  /\ existsb should_update_array rebuilt_info = false
  /\ map kind_of
       (steps_since rebuilt_world
          (bg_round false rebuilt_index rebuilt_info rebuilt_world))
     = [memory_fence_step; rcu_barrier_step].
Proof.
  assert (Hrun : bg_round false marked_index one_worker_flagged marked_world
                 = Done (rebuilt_index, rebuilt_info) rebuilt_world)
    by reflexivity.
  split; [exact Hrun|].
  destruct (bg_round_consumes_flags
              (R := SpecRoot.spec_root 2) false marked_index rebuilt_index
              one_worker_flagged rebuilt_info marked_world rebuilt_world Hrun)
    as [Hflag [_ [_ [_ Hnext]]]].
  split; [exact Hflag|].
  refine (eq_trans
            (f_equal (fun o => map kind_of (steps_since rebuilt_world o))
                     Hnext) _).
  reflexivity.
Defined.

(** The crowded index: the evaluation finds a Group to split. *)
Lemma force_adjustment_sync_cases_witness :
  root crowded_index <> None
  /\ fst marked = true
  /\ map kind_of
       (steps_since crowded_world
          (XIndex_force_adjustment_sync false crowded_index crowded_world))
     = [create_new_root_step; store_root_step; trim_root_step;
        delete_root_step].
Proof.
  split; [discriminate|]. split; [reflexivity|].
  destruct (force_adjustment_sync_cases
              (R := SpecRoot.spec_root 2) false crowded_index _ crowded_world
              eq_refl) as [_ [Hflag _]].
  refine (eq_trans
            (f_equal (fun o => map kind_of (steps_since crowded_world o))
               (Hflag eq_refl _)) _).
  - intros _. vm_compute. reflexivity.
  - reflexivity.
Defined.

(** The index of the scenario with 100 bytes on the counter that are not
    its own: the destructor reports them. *)
Lemma dtor_reports_unowned_bytes_witness :
  balanced (R := SpecRoot.spec_root 5) SpecRoot.owned 100 shared_index
           (mkWorld 308 (config shared_world) [0; 0] [])
  /\ map kind_of
       (steps_since (mkWorld 308 (config shared_world) [0; 0] [])
          (XIndex_dtor false shared_index
                       (mkWorld 308 (config shared_world) [0; 0] [])))
     = [delete_root_step; cerr_leaking_step].
Proof.
  assert (Hb : balanced (R := SpecRoot.spec_root 5) SpecRoot.owned 100
                        shared_index
                        (mkWorld 308 (config shared_world) [0; 0] []))
    by reflexivity.
  split; [exact Hb|].
  destruct (dtor_reports_unowned_bytes
              (R := SpecRoot.spec_root 5) false SpecRoot.owned
              (spec_root_accounts 5) 100 shared_index _
              (mkWorld 308 (config shared_world) [0; 0] []) _ Hb eq_refl)
    as [_ Hsteps].
  refine (eq_trans (f_equal (map kind_of) Hsteps) _). reflexivity.
Defined.

(** The index of the scenario, constructed over a counter at 100 and
    destroyed. *)
Lemma construct_then_destroy_witness :
  exists (this this' : XIndex (R := SpecRoot.spec_root 5)) w1 w2,
    XIndex_ctor false [1; 3; 5; 7; 9] [10; 30; 50; 70; 90] 1 0
                (mkWorld 100 default_config [] [])
    = Done this w1
    /\ XIndex_dtor false this w1 = Done this' w2
    /\ allocated_bytes w2 = 0.
Proof.
  eexists. eexists. eexists. eexists.
  split; [reflexivity|]. split; [reflexivity|].
  destruct (construct_then_destroy
              (R := SpecRoot.spec_root 5) false SpecRoot.owned
              (spec_root_accounts 5)
              [1; 3; 5; 7; 9] [10; 30; 50; 70; 90] 1 0
              (mkWorld 100 default_config [] []) _ _ _ _ eq_refl eq_refl)
    as [H _].
  exact H.
Defined.

(** The report of the Root of the scenario and a second pair. *)
Lemma ByteSize_add_assign_exact_witness :
  well_formed (SpecRoot.byte_size (SpecRoot.mkRoot []))
  /\ ByteSize_add_assign (SpecRoot.byte_size (SpecRoot.mkRoot []))
                         {| allocated := 100; used := 40 |}
     = {| allocated := 164; used := 104 |}.
Proof.
  assert (Ha : well_formed (SpecRoot.byte_size (SpecRoot.mkRoot [])))
    by (vm_compute; repeat split; discriminate).
  split; [exact Ha|].
  destruct (ByteSize_add_assign_exact
              (SpecRoot.byte_size (SpecRoot.mkRoot []))
              {| allocated := 100; used := 40 |}) as [H _].
  - exact Ha.
  - vm_compute. repeat split; discriminate.
  - reflexivity.
  - exact H.
Defined.

(** The report of the index of the scenario, for an index object of 48
    bytes. *)
Lemma XIndex_byte_size_adds_own_size_witness :
  well_formed (root_byte_size (Root := SpecRoot.spec_root 5)
                 (SpecRoot.mkRoot [SpecRoot.group_of
                                     [(1, 10); (3, 30); (5, 50);
                                      (7, 70); (9, 90)]]))
  /\ XIndex_byte_size 48 shared_index = {| allocated := 256; used := 192 |}.
Proof.
  assert (Hr : well_formed
                 (root_byte_size (Root := SpecRoot.spec_root 5)
                    (SpecRoot.mkRoot [SpecRoot.group_of
                                        [(1, 10); (3, 30); (5, 50);
                                         (7, 70); (9, 90)]])))
    by (vm_compute; repeat split; discriminate).
  split; [exact Hr|].
  destruct (XIndex_byte_size_adds_own_size
              (R := SpecRoot.spec_root 5) 48 shared_index) as [_ H].
  - vm_compute. split; [discriminate | reflexivity].
  - destruct (H _ eq_refl Hr) as [Heq _]; [reflexivity | exact Heq].
Defined.

End FurtherOnSpecRoot.
